(** * Pinpoint-DirectIP: the confirmation reply, the connection handler and
      the distributor

    A shallow embedding of [sbd/server.go] and [mux/distributor.go].

    Library calls of the Go code (regexp, encoding/json, net/http) and the
    declarations of package [sbd] that live outside these two files are the
    fields of an environment class per package.  Effects are explicit: a
    function that talks to the outside takes the world before the call and
    returns the world after it, and every function that performs observable
    actions returns them as a list of events in program order. *)

From Stdlib Require Import List Ascii String ZArith Bool Lia.
From Stdlib.Strings Require Import Byte.
Import ListNotations.
Open Scope string_scope.
Open Scope list_scope.
Open Scope Z_scope.

(* ================================================================== *)
(** ** Go values shared by both packages *)

Module Go.

(** A non-nil value of Go's [error] interface. *)
Inductive Err : Type :=
| ErrLib (msg : string)
    (* an error produced by a library call (regexp, json, url, http) *)
| ErrCompile (pattern : string) (cause : Err).
    (* fmt.Errorf("cannot compile patter: %q: %v", pattern, cause) *)

(** An [error]: [None] is [nil]. *)
Definition error : Type := option Err.

(** The pair [(value, err)] returned by a fallible call. *)
Inductive res (A : Type) : Type :=
| Ok (a : A)
| Fail (e : Err).
Arguments Ok {A} a.
Arguments Fail {A} e.

(** The [err] half of such a pair. *)
Definition err_of {A : Type} (r : res A) : error :=
  match r with
  | Ok _ => None
  | Fail e => Some e
  end.

(** An unbuffered channel, as far as its senders can tell. *)
Inductive chan_state : Type := Open | Closed.

(** How a call that may block on a channel ends.  [Blocks]: the channel
    operation the call has reached cannot take place in the state at
    hand. *)
Inductive outcome (A : Type) : Type :=
| Returns (a : A)
| Panics (reason : string)
| Blocks.

(** A list without its [i]-th element. *)
Fixpoint remove_nth {A : Type} (i : nat) (l : list A) : list A :=
  match l, i with
  | [], _ => []
  | _ :: rest, O => rest
  | x :: rest, S j => x :: remove_nth j rest
  end.
Arguments Returns {A} a.
Arguments Panics {A} reason.
Arguments Blocks {A}.

(** zerolog levels used by the two files. *)
Inductive level : Type := LInfo | LError.

End Go.
Import Go.

(* ================================================================== *)
(** ** Package sbd: server.go *)

Module sbd.

(** The three structs embedded in [result].  Their declarations are not
    in server.go; the field names are those of the composite literal in
    [createResult], and [Status] has the type of its argument. *)
Record MessageHeader : Type := {
  ProtocolRevision : byte;
  MessageLength : Z
}.

Record Header : Type := {
  ID : byte;
  ElementLength : Z
}.

Record MOConfirmationMessage : Type := {
  Status : byte
}.

Record result : Type := {
  result_MessageHeader : MessageHeader;
  result_Header : Header;
  result_MOConfirmationMessage : MOConfirmationMessage
}.

(** [res.Status = 1]: assignment through the promoted field. *)
Definition set_Status (r : result) (s : byte) : result :=
  {| result_MessageHeader := result_MessageHeader r;
     result_Header := result_Header r;
     result_MOConfirmationMessage := {| Status := s |} |}.

(** The status byte of a reply. *)
Definition status_of (r : result) : byte :=
  Status (result_MOConfirmationMessage r).

(** The low eight bits of an integer. *)
Definition byte_of_Z (z : Z) : byte :=
  match Byte.of_N (Z.to_N (z mod 256)) with
  | Some b => b
  | None => x00
  end.

(** An unsigned integer in [w] bytes, most significant first
    ([binary.BigEndian]). *)
Fixpoint put_uint (w : nat) (v : Z) : list byte :=
  match w with
  | O => []
  | S w' => byte_of_Z (v / 256 ^ Z.of_nat w') :: put_uint w' v
  end.

(** What server.go uses and does not declare. *)
Class Env : Type := {
  (* constants of package sbd *)
  protocolRevision : byte;
  moConfirmationID : byte;
  (* width in bytes of the length fields MessageLength and ElementLength *)
  lenWidth : nat;
  (* the decoded message and its decoder *)
  InformationBucket : Type;
  Conn : Type;
  World : Type;
  GetElements : Conn -> World -> res InformationBucket * World
}.

Section Server.
Context {E : Env}.

Definition createResult (status : byte) : result :=
  {| result_MessageHeader :=
       {| ProtocolRevision := protocolRevision; MessageLength := 4 |};
     result_Header :=
       {| ID := moConfirmationID; ElementLength := 1 |};
     result_MOConfirmationMessage := {| Status := status |} |}.

(** The bytes [binary.Write(c, binary.BigEndian, res)] produces: the
    fields of the embedded structs in declaration order. *)
Definition header_bytes (h : MessageHeader) : list byte :=
  ProtocolRevision h :: put_uint lenWidth (MessageLength h).

Definition element_header_bytes (h : Header) : list byte :=
  ID h :: put_uint lenWidth (ElementLength h).

Definition element_payload_bytes (c : MOConfirmationMessage) : list byte :=
  [Status c].

Definition element_bytes (r : result) : list byte :=
  element_header_bytes (result_Header r)
    ++ element_payload_bytes (result_MOConfirmationMessage r).

Definition encode (r : result) : list byte :=
  header_bytes (result_MessageHeader r) ++ element_bytes r.

(** [Handler.Handle]. *)
Definition Handler : Type := InformationBucket -> World -> error * World.

(** What the goroutine serving one connection does, in order. *)
Inductive conn_event : Type :=
| EvSetDeadline (c : Conn) (seconds : Z)
| EvLog (lvl : level) (msg : string) (err : error)
| EvHandle (el : InformationBucket)
| EvWrite (c : Conn) (res : result)
| EvClose (c : Conn).

Definition deadline : Z := 30.

(** The body of [go func(c net.Conn) { ... }(conn)] in [NewService];
    the deferred [c.Close()] runs last on both exits. *)
Definition serve (h : Handler) (c : Conn) (w : World)
  : list conn_event * World :=
  let '(r, w1) := GetElements c w in
  let res := createResult x00 in
  match r with
  | Fail err =>
      ([ EvSetDeadline c deadline;
         EvLog LInfo "new connection" None;
         EvLog LError "cannot get elements from connection" (Some err);
         EvWrite c res;
         EvClose c ], w1)
  | Ok el =>
      let '(err, w2) := h el w1 in
      let '(logs, res') :=
        match err with
        | Some _ => ([EvLog LError "error handling message" err], res)
        | None => ([], set_Status res x01)
        end in
      ([ EvSetDeadline c deadline;
         EvLog LInfo "new connection" None;
         EvLog LInfo "received data" None;
         EvHandle el ]
         ++ logs
         ++ [ EvLog LInfo "write response" None;
              EvWrite c res';
              EvClose c ], w2)
  end.

(** The replies written to the connection, in order. *)
Definition writes (evs : list conn_event) : list result :=
  flat_map (fun e => match e with EvWrite _ r => [r] | _ => [] end) evs.

(** The messages the handler was invoked with, in order. *)
Definition handled (evs : list conn_event) : list InformationBucket :=
  flat_map (fun e => match e with EvHandle el => [el] | _ => [] end) evs.

(** What reaches the peer: the events on the connection itself. *)
Definition on_wire (evs : list conn_event) : list conn_event :=
  filter (fun e => match e with
                   | EvWrite _ _ | EvClose _ => true
                   | _ => false
                   end) evs.

End Server.

End sbd.

(* ================================================================== *)
(** ** Package mux: distributor.go *)

Module mux.

(** [&http.Client{Transport: &http.Transport{TLSClientConfig:
    &tls.Config{InsecureSkipVerify: ...}}}]: the one setting the
    distributor chooses. *)
Record Client : Type := {
  InsecureSkipVerify : bool
}.

(** [http.Header], a [map[string][]string]: one entry per name, with the
    values added under that name in the order they were added. *)
Definition HeaderMap : Type := list (string * list string).

(** [h[k]]: the values under the name [k], none when the name is
    missing. *)
Fixpoint header_index (h : HeaderMap) (k : string) : list string :=
  match h with
  | [] => []
  | (k', vs) :: rest => if String.eqb k' k then vs else header_index rest k
  end.

(** [h[k] = append(h[k], v)]. *)
Fixpoint header_append (h : HeaderMap) (k v : string) : HeaderMap :=
  match h with
  | [] => [(k, [v])]
  | (k', vs) :: rest =>
      if String.eqb k' k then (k', vs ++ [v]) :: rest
      else (k', vs) :: header_append rest k v
  end.

(** The parts of [http.Request] the distributor fills in. *)
Record Request : Type := {
  Method : string;
  URL : string;
  Body : list byte;
  ReqHeader : HeaderMap
}.

(** The parts of [http.Response] the distributor reads. *)
Record Response : Type := {
  StatusCode : Z;
  Status : string;
  RespBody : list byte
}.

(** A channel value: which channel it is. *)
Definition chan : Type := nat.

(** What distributor.go uses and does not declare. *)
Class Lib : Type := {
  (* sbd.InformationBucket and m.data.Header.GetIMEI() *)
  InformationBucket : Type;
  GetIMEI : InformationBucket -> string;
  (* json.Marshal *)
  Marshal : InformationBucket -> res (list byte);
  (* regexp.Regexp, regexp.Compile and the method MatchString *)
  Regexp : Type;
  Compile : string -> res Regexp;
  MatchString : Regexp -> string -> bool;
  (* the error of url.Parse, the only way http.NewRequest can fail for the
     method POST *)
  url_Parse : string -> error;
  (* textproto.CanonicalMIMEHeaderKey, which Header.Add applies to the
     name it is given *)
  CanonicalMIMEHeaderKey : string -> string;
  (* the method Do of http.Client, with the state of the network and the
     backends *)
  World : Type;
  Do : Client -> Request -> World -> res Response * World
}.

Section Distributor.
Context {L : Lib}.

(** A nil [*regexp.Regexp] or [*http.Client] is [None].  [Header], a
    [map[string]string], is the list of its entries in the order one
    [range] over it visits them. *)
Record Target : Type := {
  ID : string;
  IMEIPattern : string;
  Backend : string;
  SkipTLS : bool;
  Header : list (string * string);
  imeipattern : option Regexp;
  client : option Client
}.

Definition Targets : Type := list Target.

(** [listeners] and [pending] are not fields of the Go struct; they are
    where the goroutines started by [New] stand in [run].  [listeners]
    counts those waiting in the [select].  [pending] holds, for each one
    that has received a configuration and has not yet executed
    [f.targets = cfg], the configuration it received. *)
Record distributer : Type := {
  targets : list Target;
  sbdChannel : chan_state;
  configChannel : chan_state;
  listeners : nat;
  pending : list (list Target)
}.

Record sbdMessage : Type := {
  data : InformationBucket;
  returnedError : chan
}.

(** What a dispatch does, in order. *)
Inductive event : Type :=
| EvLog (lvl : level) (target : string) (msg : string)
| EvDo (t : Target) (rq : Request)
    (* t.client.Do(rq): the HTTP request issued to t *)
| EvSend (ch : chan) (e : error).
    (* ch <- e *)

(** Where control goes after a statement. *)
Inductive flow : Type :=
| Next
| Return
| Panic (reason : string).

Definition New (numworkers : Z) : distributer :=
  {| targets := [];
     sbdChannel := Open;
     configChannel := Open;
     listeners := Z.to_nat numworkers;
     pending := [] |}.

(** [t.imeipattern = p] and [t.client = &http.Client{...}] on the loop's
    copy of the candidate. *)
Definition with_compiled (t : Target) (p : Regexp) : Target :=
  {| ID := ID t;
     IMEIPattern := IMEIPattern t;
     Backend := Backend t;
     SkipTLS := SkipTLS t;
     Header := Header t;
     imeipattern := Some p;
     client := Some {| InsecureSkipVerify := SkipTLS t |} |}.

(** The [for] loop of [WithTargets]; [ar] is the slice built so far. *)
Fixpoint compile_targets (targets : Targets) (ar : Targets) : res Targets :=
  match targets with
  | [] => Ok ar
  | t :: rest =>
      match Compile (IMEIPattern t) with
      | Fail err => Fail (ErrCompile (IMEIPattern t) err)
      | Ok p => compile_targets rest (ar ++ [with_compiled t p])
      end
  end.

(** What one iteration of the [select] in [run] receives. *)
Inductive received : Type :=
| FromConfig (cfg : Targets) (more : bool)
| FromSbd (msg : sbdMessage).

(** The body of the [select] case a listener runs for what it received:
    the distributor afterwards and the message for which
    [go f.handle(msg)] is started, if any. *)
Definition run_step (f : distributer) (r : received)
  : distributer * option sbdMessage :=
  match r with
  | FromConfig cfg more =>
      if more then
        ({| targets := cfg;
            sbdChannel := sbdChannel f;
            configChannel := configChannel f;
            listeners := listeners f;
            pending := pending f |}, None)
      else
        ({| targets := targets f;
            sbdChannel := sbdChannel f;
            configChannel := configChannel f;
            listeners := pred (listeners f);
            pending := pending f |}, None)
  | FromSbd msg => (f, Some msg)
  end.

(** [cfg, more := <-f.configChannel] in a listener waiting in the
    [select]: the listener has left the [select] and holds [cfg]; the
    table is still the one it was. *)
Definition run_receive_config (f : distributer) (cfg : Targets) : distributer :=
  {| targets := targets f;
     sbdChannel := sbdChannel f;
     configChannel := configChannel f;
     listeners := pred (listeners f);
     pending := pending f ++ [cfg] |}.

(** [f.configChannel <- ar] is a rendezvous with a listener waiting in the
    [select]: the send completes, and [WithTargets] returns, when the
    listener has received [ar]; what the listener does with it comes
    later ([run_set_config]). *)
Definition WithTargets (f : distributer) (targets : Targets)
  : outcome error * distributer :=
  match compile_targets targets [] with
  | Fail err => (Returns (Some err), f)
  | Ok ar =>
      match configChannel f with
      | Closed => (Panics "send on closed channel", f)
      | Open =>
          match listeners f with
          | O => (Blocks, f)
          | S _ => (Returns None, run_receive_config f ar)
          end
      end
  end.

(** The listener holding the [i]-th pending configuration goes on: it
    logs, executes [f.targets = cfg] and is back in the [select].  Which
    of several such listeners goes on first is not determined. *)
Definition run_set_config (f : distributer) (i : nat) : distributer :=
  match nth_error (pending f) i with
  | None => f
  | Some cfg =>
      fst (run_step
             {| targets := targets f;
                sbdChannel := sbdChannel f;
                configChannel := configChannel f;
                listeners := S (listeners f);
                pending := remove_nth i (pending f) |}
             (FromConfig cfg true))
  end.

Definition MethodPost : string := "POST".

Definition NewRequest (method url : string) (body : list byte) : res Request :=
  match url_Parse url with
  | Some e => Fail e
  | None => Ok {| Method := method; URL := url; Body := body; ReqHeader := [] |}
  end.

(** [rq.Header.Add(k, v)]: the value is appended to those under the
    canonical form of the name. *)
Definition Header_Add (rq : Request) (k v : string) : Request :=
  {| Method := Method rq;
     URL := URL rq;
     Body := Body rq;
     ReqHeader := header_append (ReqHeader rq) (CanonicalMIMEHeaderKey k) v |}.

(** The request [handle] hands to [t.client.Do]. *)
Definition request_for (t : Target) (js : list byte) : res Request :=
  match NewRequest MethodPost (Backend t) js with
  | Fail err => Fail err
  | Ok rq =>
      let rq := Header_Add rq "Content-Type" "application/json" in
      Ok (fold_left (fun rq kv => Header_Add rq (fst kv) (snd kv)) (Header t) rq)
  end.

(** [rsp.StatusCode/100 == 2], with Go's truncating division. *)
Definition is_2xx (rsp : Response) : bool :=
  Z.quot (StatusCode rsp) 100 =? 2.

(** The body of the [for] loop of [handle] for one target.  Draining the
    response body ([io.ReadAll]) and the deferred [rsp.Body.Close()] do
    not bear on what the loop does next and are left out. *)
Definition handle_target (js : list byte) (imei : string) (ch : chan)
  (t : Target) (w : World) : list event * World * flow :=
  match imeipattern t with
  | None => ([], w, Panic "nil pointer dereference")
  | Some re =>
      if MatchString re imei then
        match request_for t js with
        | Fail err =>
            ([EvLog LError (Backend t) "cannot create request";
              EvSend ch (Some err)], w, Return)
        | Ok rq =>
            match client t with
            | None => ([], w, Panic "nil pointer dereference")
            | Some c =>
                let '(r, w') := Do c rq w in
                let err := err_of r in
                match r with
                | Fail _ =>
                    ([EvDo t rq;
                      EvLog LError (Backend t) "cannot call webhook";
                      EvSend ch err], w', Return)
                | Ok rsp =>
                    if is_2xx rsp then
                      ([EvDo t rq;
                        EvLog LInfo (Backend t) "data transmitted"], w', Next)
                    else
                      ([EvDo t rq;
                        EvLog LError (Backend t) "data not transmitted";
                        EvSend ch err], w', Return)
                end
            end
        end
      else ([], w, Next)
  end.

(** [for _, t := range ts { ... }]. *)
Fixpoint range_targets (js : list byte) (imei : string) (ch : chan)
  (ts : list Target) (w : World) : list event * World * flow :=
  match ts with
  | [] => ([], w, Next)
  | t :: rest =>
      let '(evs, w1, fl) := handle_target js imei ch t w in
      match fl with
      | Next =>
          let '(evs', w2, fl') := range_targets js imei ch rest w1 in
          (evs ++ evs', w2, fl')
      | _ => (evs, w1, fl)
      end
  end.

Definition handle (f : distributer) (m : sbdMessage) (w : World)
  : list event * World * flow :=
  match Marshal (data m) with
  | Fail err => ([EvSend (returnedError m) (Some err)], w, Return)
  | Ok js =>
      let imei := GetIMEI (data m) in
      let '(evs, w1, fl) :=
        range_targets js imei (returnedError m) (targets f) w in
      match fl with
      | Next => (evs ++ [EvSend (returnedError m) None], w1, Return)
      | _ => (evs, w1, fl)
      end
  end.

(** [<-ch] after the events [evs]: the first value sent on [ch]. *)
Fixpoint receive (ch : chan) (evs : list event) : option error :=
  match evs with
  | [] => None
  | EvSend ch' e :: rest => if Nat.eqb ch' ch then Some e else receive ch rest
  | _ :: rest => receive ch rest
  end.

(** [ch] is the channel [make(chan error)] returns.  The send on
    [f.sbdChannel] is a rendezvous with one listener, which starts
    [go f.handle(msg)]; the caller then waits for the value sent on
    [msg.returnedError] (and closes that channel, which no one uses
    again). *)
Definition distribute (f : distributer) (d : InformationBucket) (ch : chan)
  (w : World) : outcome error * list event * World :=
  let msg := {| data := d; returnedError := ch |} in
  match sbdChannel f with
  | Closed => (Panics "send on closed channel", [], w)
  | Open =>
      match listeners f with
      | O => (Blocks, [], w)
      | S _ =>
          match snd (run_step f (FromSbd msg)) with
          | None => (Blocks, [], w)
          | Some m =>
              let '(evs, w1, fl) := handle f m w in
              match receive (returnedError msg) evs with
              | Some rerr => (Returns rerr, evs, w1)
              | None =>
                  match fl with
                  | Panic reason => (Panics reason, evs, w1)
                  | _ => (Blocks, evs, w1)
                  end
              end
          end
      end
  end.

Definition Handle (f : distributer) (d : InformationBucket) (ch : chan)
  (w : World) : outcome error * list event * World :=
  distribute f d ch w.

Definition Close (f : distributer) : outcome unit * distributer :=
  match configChannel f with
  | Closed => (Panics "close of closed channel", f)
  | Open =>
      match sbdChannel f with
      | Closed =>
          (Panics "close of closed channel",
           {| targets := targets f;
              sbdChannel := Closed;
              configChannel := Closed;
              listeners := listeners f;
              pending := pending f |})
      | Open =>
          (Returns tt,
           {| targets := targets f;
              sbdChannel := Closed;
              configChannel := Closed;
              listeners := listeners f;
              pending := pending f |})
      end
  end.

(** The targets that were sent an HTTP request, in order. *)
Definition requested (evs : list event) : list Target :=
  flat_map (fun e => match e with EvDo t _ => [t] | _ => [] end) evs.

(** The values sent on [ch], in order. *)
Definition sent (ch : chan) (evs : list event) : list error :=
  flat_map (fun e => match e with
                     | EvSend ch' v => if Nat.eqb ch' ch then [v] else []
                     | _ => []
                     end) evs.

(** Whether the compiled pattern of [t] matches [imei]. *)
Definition matches (imei : string) (t : Target) : bool :=
  match imeipattern t with
  | Some re => MatchString re imei
  | None => false
  end.

(** Whether [t] went through the loop of [WithTargets]. *)
Definition compiled (t : Target) : bool :=
  match imeipattern t, client t with
  | Some _, Some _ => true
  | _, _ => false
  end.

(** Whether the call to a backend failed: a transport-level error or a
    response outside the 2xx class. *)
Definition failed (r : res Response) : bool :=
  match r with
  | Fail _ => true
  | Ok rsp => negb (is_2xx rsp)
  end.

(** Whether [regexp.Compile] accepts the pattern of a candidate. *)
Definition pattern_ok (t : Target) : bool :=
  match Compile (IMEIPattern t) with
  | Ok _ => true
  | Fail _ => false
  end.

(** [t] is the candidate [c] with its pattern compiled and its client
    built. *)
Definition compiles_to (c t : Target) : Prop :=
  exists p, Compile (IMEIPattern c) = Ok p /\ t = with_compiled c p.

(** The distributor [f] with another table and nothing else changed. *)
Definition with_targets (f : distributer) (ar : Targets) : distributer :=
  {| targets := ar;
     sbdChannel := sbdChannel f;
     configChannel := configChannel f;
     listeners := listeners f;
     pending := pending f |}.

(** The states the distributor goes through: [New], then any number of
    [WithTargets] calls, of listeners assigning the configuration they
    hold, and at most one successful [Close]. *)
Inductive reachable : distributer -> Prop :=
| reach_New : forall n, reachable (New n)
| reach_WithTargets : forall f ts,
    reachable f -> reachable (snd (WithTargets f ts))
| reach_set_config : forall f i,
    reachable f -> reachable (run_set_config f i)
| reach_Close : forall f,
    reachable f -> reachable (snd (Close f)).


(** The method [Targets()]. *)
Definition distributer_Targets (f : distributer) : Targets := targets f.

(** [t] is what [WithTargets] makes of [t] itself: its pattern compiles,
    and its private fields hold the compiled pattern and the client for
    its [SkipTLS]. *)
Definition is_installed (t : Target) : Prop := compiles_to t t.

(** A distributor whose channels are open and that has a listener. *)
Definition is_running (f : distributer) : bool :=
  match sbdChannel f, configChannel f, listeners f with
  | Open, Open, S _ => true
  | _, _, _ => false
  end.

End Distributor.

End mux.

(* ================================================================== *)
(** ** Package sbd: the handler adapters of server.go *)

Module sbd_handlers.

Section Handlers.
Context {E : sbd.Env}.

(** [json.Marshal] on a decoded message. *)
Variable Marshal : sbd.InformationBucket -> res (list byte).

(** [HandlerFunc] and its method [Handle], which calls the function. *)
Definition HandlerFunc : Type :=
  sbd.InformationBucket -> sbd.World -> error * sbd.World.

Definition HandlerFunc_Handle (f : HandlerFunc) : sbd.Handler :=
  fun data w => f data w.

(** [Logger(log, next)]; the log entry written before [next] is called is
    left out. *)
Definition Logger (next : sbd.Handler) : sbd.Handler :=
  HandlerFunc_Handle
    (fun data w =>
       match Marshal data with
       | Fail err => (Some err, w)
       | Ok _ => next data w
       end).

End Handlers.

End sbd_handlers.

(* ================================================================== *)
(** ** Command directipserver: main.go *)

Module directipserver.

(** [watch.EventType]. *)
Inductive EventType : Type := Added | Modified | Deleted | Bookmark | Error.

(** The parts of [v1.Service] the watcher reads.  [Annotations], a
    [map[string]string], is the list of its entries. *)
Record Service : Type := {
  UID : string;
  Annotations : list (string * string);
  ClusterIP : string
}.

(** [watch.Event]; [Object] is [None] when the object is not a
    [*v1.Service]. *)
Record Event : Type := {
  EvType : EventType;
  Object : option Service
}.

(** [v, ok := a[k]]. *)
Fixpoint lookup (k : string) (a : list (string * string)) : option string :=
  match a with
  | [] => None
  | (k', v) :: rest => if String.eqb k' k then Some v else lookup k rest
  end.

(** [a[k]]: the empty string when the key is missing. *)
Definition index (a : list (string * string)) (k : string) : string :=
  match lookup k a with
  | Some v => v
  | None => ""
  end.

(** Whether the object of an event is a [*v1.Service]. *)
Definition carries_service (event : Event) : bool :=
  match Object event with
  | Some _ => true
  | None => false
  end.

Section Watch.
Context {L : mux.Lib}.

Definition targetFromService (s : Service) : option mux.Target :=
  let a := Annotations s in
  match lookup "protegear.io/directip-imei" a with
  | Some t =>
      let path := index a "protegear.io/directip-path" in
      let path := if String.eqb path "" then "/" else path in
      let port := index a "protegear.io/directip-port" in
      let port := if String.eqb port "" then "8080" else port in
      let ip := ClusterIP s in
      if String.eqb ip "" then None
      else
        Some {| mux.ID := UID s;
                mux.IMEIPattern := t;
                mux.Backend := "http://" ++ ip ++ ":" ++ port ++ path;
                mux.SkipTLS := false;
                mux.Header := [];
                mux.imeipattern := None;
                mux.client := None |}
  | None => None
  end.

(** [err = s.WithTargets(tgs)] followed by the log entry for either
    result: the loop goes on whatever [err] is. *)
Definition logged (r : outcome error * mux.distributer)
  : outcome unit * mux.distributer :=
  match r with
  | (Returns _, f) => (Returns tt, f)
  | (Panics reason, f) => (Panics reason, f)
  | (Blocks, f) => (Blocks, f)
  end.

(** The body of the loop of [watchServices] for one event.  [targets] is
    what [s.Targets()] returned when the iteration read it, and [s] is
    the distributor at the later moment the send of [WithTargets] takes
    place. *)
Definition watch_event (targets : mux.Targets) (s : mux.distributer)
  (event : Event) : outcome unit * mux.distributer :=
  match Object event with
  | None => (Panics "interface conversion", s)
  | Some svc =>
      match EvType event with
      | Added =>
          match targetFromService svc with
          | Some t => logged (mux.WithTargets s (targets ++ [t]))
          | None => (Returns tt, s)
          end
      | Deleted =>
          logged (mux.WithTargets s
                    (filter (fun t => negb (String.eqb (mux.ID t) (UID svc)))
                       targets))
      | Modified =>
          match targetFromService svc with
          | Some t =>
              logged (mux.WithTargets s
                        (map (fun tt =>
                                if String.eqb (mux.ID tt) (UID svc) then t
                                else tt) targets))
          | None => (Returns tt, s)
          end
      | _ => (Returns tt, s)
      end
  end.

(** One iteration as it is scheduled among the listeners: the pending
    assignments that run before the iteration reads the table, the event,
    and the pending assignments that run between the read and the send
    of [WithTargets]. *)
Record turn : Type := {
  before_read : list nat;
  turn_event : Event;
  before_send : list nat
}.

Definition set_configs (s : mux.distributer) (order : list nat)
  : mux.distributer :=
  fold_left mux.run_set_config order s.

(** [for event := range watcher.ResultChan() { ... }] over the events the
    channel delivers before it is closed. *)
Fixpoint watch_events (s : mux.distributer) (turns : list turn)
  : outcome unit * mux.distributer :=
  match turns with
  | [] => (Returns tt, s)
  | tn :: rest =>
      let s1 := set_configs s (before_read tn) in
      let targets := mux.distributer_Targets s1 in
      let s2 := set_configs s1 (before_send tn) in
      match watch_event targets s2 (turn_event tn) with
      | (Returns _, s3) => watch_events s3 rest
      | r => r
      end
  end.

End Watch.

End directipserver.

(* ================================================================== *)
(** ** A concrete environment

    One instance of each environment, used to run the definitions above
    on explicit inputs. *)

Module Demo.

(** A decoded message: the IMEI of its header and its payload;
    [unsupported] marks a value [json.Marshal] cannot serialise. *)
Record bucket : Type := {
  imei : string;
  payload : list byte;
  unsupported : bool
}.

Definition marshal (b : bucket) : res (list byte) :=
  if unsupported b then Fail (ErrLib "json: unsupported value")
  else Ok (payload b).

(** The fragment of regexp the examples use: a literal, optionally
    anchored at the start by [^]; [(] is the pattern that does not
    compile. *)
Definition compile (p : string) : res string :=
  if String.eqb p "(" then
    Fail (ErrLib "error parsing regexp: missing closing )")
  else Ok p.

Fixpoint contains (lit s : string) : bool :=
  String.prefix lit s
  || match s with
     | EmptyString => false
     | String _ s' => contains lit s'
     end.

Definition match_string (re s : string) : bool :=
  match re with
  | String "^"%char lit => String.prefix lit s
  | _ => contains re s
  end.

Definition url_parse (u : string) : error :=
  if String.eqb u ":" then Some (ErrLib "missing protocol scheme") else None.

(** The case folding of [textproto.CanonicalMIMEHeaderKey] for names made
    of letters, digits and hyphens: upper case at the start and after a
    hyphen, lower case elsewhere; other names are left as they are. *)
Definition is_name_char (c : ascii) : bool :=
  let n := nat_of_ascii c in
  ((65 <=? n) && (n <=? 90) || (97 <=? n) && (n <=? 122)
   || (48 <=? n) && (n <=? 57) || (n =? 45))%nat.

Definition fold_case (up : bool) (c : ascii) : ascii :=
  let n := nat_of_ascii c in
  if up then
    if ((97 <=? n) && (n <=? 122))%nat then ascii_of_nat (n - 32) else c
  else
    if ((65 <=? n) && (n <=? 90))%nat then ascii_of_nat (n + 32) else c.

Fixpoint canonical_from (up : bool) (s : string) : string :=
  match s with
  | EmptyString => EmptyString
  | String c rest =>
      String (fold_case up c) (canonical_from (Ascii.eqb c "-"%char) rest)
  end.

Fixpoint all_name_chars (s : string) : bool :=
  match s with
  | EmptyString => true
  | String c rest => is_name_char c && all_name_chars rest
  end.

Definition canonical (s : string) : string :=
  if all_name_chars s then canonical_from true s else s.

(** Three backends: one accepts, one answers 500, and nothing listens at
    any other address.  The world counts the calls made. *)
Definition do (c : mux.Client) (rq : mux.Request) (w : nat)
  : res mux.Response * nat :=
  let r :=
    if String.eqb (mux.URL rq) "http://a.example/hook" then
      Ok {| mux.StatusCode := 200; mux.Status := "200 OK"; mux.RespBody := [] |}
    else if String.eqb (mux.URL rq) "http://b.example/hook" then
      Ok {| mux.StatusCode := 500;
            mux.Status := "500 Internal Server Error";
            mux.RespBody := [] |}
    else Fail (ErrLib "dial tcp: connection refused") in
  (r, S w).

#[export] Instance lib : mux.Lib := {|
  mux.InformationBucket := bucket;
  mux.GetIMEI := imei;
  mux.Marshal := marshal;
  mux.Regexp := string;
  mux.Compile := compile;
  mux.MatchString := match_string;
  mux.url_Parse := url_parse;
  mux.CanonicalMIMEHeaderKey := canonical;
  mux.World := nat;
  mux.Do := do
|}.

(** A candidate as the configuration loader produces it. *)
Definition candidate (id pattern backend : string) : mux.Target :=
  {| mux.ID := id;
     mux.IMEIPattern := pattern;
     mux.Backend := backend;
     mux.SkipTLS := false;
     mux.Header := [];
     mux.imeipattern := None;
     mux.client := None |}.

Definition targetA : mux.Target := candidate "a" "^300" "http://a.example/hook".
Definition targetB : mux.Target := candidate "b" "^999" "http://b.example/hook".
Definition targetB300 : mux.Target :=
  candidate "b300" "^300" "http://b.example/hook".
Definition targetDown : mux.Target :=
  candidate "down" "^300" "http://down.example/hook".
Definition targetBad : mux.Target := candidate "bad" "(" "http://a.example/hook".
Definition targetNoURL : mux.Target := candidate "nourl" "^300" ":".

(** The same targets after [WithTargets] compiled them. *)
Definition installed (t : mux.Target) : mux.Target :=
  mux.with_compiled t (mux.IMEIPattern t).

Definition message : bucket :=
  {| imei := "3004340635"; payload := []; unsupported := false |}.

Definition bad_message : bucket :=
  {| imei := "3004340635"; payload := []; unsupported := true |}.

(** The request [handle] builds for a target without static headers,
    and the body the message serialises to. *)
Definition request_to (t : mux.Target) : mux.Request :=
  {| mux.Method := "POST";
     mux.URL := mux.Backend t;
     mux.Body := [];
     mux.ReqHeader := [("Content-Type", ["application/json"])] |}.

Definition response_500 : mux.Response :=
  {| mux.StatusCode := 500;
     mux.Status := "500 Internal Server Error";
     mux.RespBody := [] |}.

(** A message submitted with the result channel 7. *)
Definition submitted (b : bucket) : mux.sbdMessage :=
  {| mux.data := b; mux.returnedError := 7%nat |}.

(** A distributor with [n] listeners and the given candidates installed:
    the listener that received them has assigned them. *)
Definition running_on (n : Z) (cands : mux.Targets) : mux.distributer :=
  mux.run_set_config (snd (mux.WithTargets (mux.New n) cands)) 0.

(** A distributor with one listener and the given candidates installed. *)
Definition running (cands : mux.Targets) : mux.distributer :=
  running_on 1 cands.

(** A target with static headers. *)
Definition targetKeyed : mux.Target :=
  {| mux.ID := "keyed";
     mux.IMEIPattern := "^300";
     mux.Backend := "http://a.example/hook";
     mux.SkipTLS := true;
     mux.Header := [("x-api-key", "secret"); ("X-API-Key", "other");
                    ("content-type", "text/plain")];
     mux.imeipattern := None;
     mux.client := None |}.

(** The environment of the server: revision 1, the confirmation element
    identifier 5, and two-byte length fields.  A connection is the bytes
    the peer sends; an empty one cannot be decoded. *)
Definition get_elements (c : list byte) (w : unit) : res bucket * unit :=
  match c with
  | [] => (Fail (ErrLib "EOF"), w)
  | _ => (Ok {| imei := "3004340635"; payload := c; unsupported := false |}, w)
  end.

#[export] Instance env : sbd.Env := {|
  sbd.protocolRevision := x01;
  sbd.moConfirmationID := x05;
  sbd.lenWidth := 2;
  sbd.InformationBucket := bucket;
  sbd.Conn := list byte;
  sbd.World := unit;
  sbd.GetElements := get_elements
|}.

(** A service annotated for the distributor, and one that is not. *)
Definition service (uid pattern ip : string) : directipserver.Service :=
  {| directipserver.UID := uid;
     directipserver.Annotations := [("protegear.io/directip-imei", pattern)];
     directipserver.ClusterIP := ip |}.

(** The same with further annotations, listed before the pattern. *)
Definition service_with (more : list (string * string))
  (uid pattern ip : string) : directipserver.Service :=
  {| directipserver.UID := uid;
     directipserver.Annotations :=
       more ++ [("protegear.io/directip-imei", pattern)];
     directipserver.ClusterIP := ip |}.

Definition plain_service : directipserver.Service :=
  {| directipserver.UID := "plain";
     directipserver.Annotations := [("app", "web")];
     directipserver.ClusterIP := "10.0.0.9" |}.

Definition watched (ty : directipserver.EventType)
  (svc : directipserver.Service) : directipserver.Event :=
  {| directipserver.EvType := ty; directipserver.Object := Some svc |}.

(** An iteration that reads the table after every pending assignment of
    the one listener has run, and one that reads it before. *)
Definition settled_turn (event : directipserver.Event) : directipserver.turn :=
  {| directipserver.before_read := [0%nat];
     directipserver.turn_event := event;
     directipserver.before_send := [] |}.

Definition early_turn (event : directipserver.Event) : directipserver.turn :=
  {| directipserver.before_read := [];
     directipserver.turn_event := event;
     directipserver.before_send := [0%nat] |}.

(** A handler that accepts everything and counts nothing. *)
Definition accept_all : sbd.Handler (E := env) := fun _ w => (None, w).

End Demo.

(* ================================================================== *)
(** * Properties *)

(* ------------------------------------------------------------------ *)
(** ** The confirmation reply and the connection handler *)

Section SbdFacts.
Context {E : sbd.Env}.
Import sbd.

Lemma set_Status_createResult (s s' : byte) :
  set_Status (createResult s) s' = createResult s'.
Proof. reflexivity. Qed.

Lemma put_uint_length (w : nat) (v : Z) : List.length (put_uint w v) = w.
Proof. induction w as [|w IH]; simpl; [reflexivity | now rewrite IH]. Qed.

(** With length fields of [lenWidth] bytes the confirmation element
    occupies [lenWidth + 2] bytes. *)
Lemma element_bytes_length (status : byte) :
  List.length (element_bytes (createResult status)) = (lenWidth + 2)%nat.
Proof.
  unfold element_bytes, element_header_bytes, element_payload_bytes.
  rewrite length_app. simpl. rewrite put_uint_length. lia.
Qed.

(** The declared message length 4 is the size of the element exactly when
    the length fields are two bytes wide. *)
Lemma declared_length_is_element_size (status : byte) :
  Z.of_nat (List.length (element_bytes (createResult status)))
    = MessageLength (result_MessageHeader (createResult status))
  <-> lenWidth = 2%nat.
Proof. rewrite element_bytes_length. simpl. lia. Qed.

(** C7: for every status byte, [createResult] builds the revision byte and
    a declared length of 4, then one Confirmation element with declared
    length 1 carrying the status byte unchanged; with two-byte length
    fields the encoding is the seven bytes below, the declared message
    length is the size of the one element (header and status byte) and the
    declared element length is the size of its payload.  [createResult]
    and [encode] are total functions. *)
Theorem createResult_confirmation_shape (status : byte) :
  lenWidth = 2%nat ->
  let r := createResult status in
  ProtocolRevision (result_MessageHeader r) = protocolRevision /\
  MessageLength (result_MessageHeader r) = 4 /\
  ID (result_Header r) = moConfirmationID /\
  ElementLength (result_Header r) = 1 /\
  status_of r = status /\
  encode r =
    [protocolRevision; x00; x04; moConfirmationID; x00; x01; status] /\
  Z.of_nat (List.length (element_bytes r)) = MessageLength (result_MessageHeader r) /\
  Z.of_nat (List.length (element_payload_bytes (result_MOConfirmationMessage r)))
    = ElementLength (result_Header r).
Proof.
  intros Hw r.
  repeat split; try reflexivity.
  - unfold encode, header_bytes, element_bytes, element_header_bytes. simpl.
    rewrite Hw. reflexivity.
  - subst r. rewrite element_bytes_length, Hw. reflexivity.
Qed.

(** C5: the goroutine serving a connection writes exactly one reply.  When
    decoding fails the handler is not invoked and the status byte is 0;
    when the handler returns nil the status byte is 1; when it returns an
    error the status byte is 0, and what goes out on the connection is the
    same for every error. *)
Theorem serve_confirms_once (h : Handler) (c : Conn) (w : World) :
  let evs := fst (serve h c w) in
  match GetElements c w with
  | (Fail _, _) =>
      handled evs = [] /\
      writes evs = [createResult x00] /\
      on_wire evs = [EvWrite c (createResult x00); EvClose c]
  | (Ok el, w1) =>
      handled evs = [el] /\
      match fst (h el w1) with
      | None =>
          writes evs = [createResult x01] /\
          on_wire evs = [EvWrite c (createResult x01); EvClose c]
      | Some _ =>
          writes evs = [createResult x00] /\
          on_wire evs = [EvWrite c (createResult x00); EvClose c]
      end
  end /\
  status_of (createResult x00) = x00 /\
  status_of (createResult x01) = x01.
Proof.
  unfold serve.
  destruct (GetElements c w) as [[el | err] w1]; simpl.
  - destruct (h el w1) as [[e |] w2]; simpl; repeat split; reflexivity.
  - repeat split; reflexivity.
Qed.

End SbdFacts.

(** The shape of the reply in the concrete environment. *)
Lemma createResult_confirmation_shape_witness :
  sbd.lenWidth (Env := Demo.env) = 2%nat /\
  sbd.encode (E := Demo.env) (sbd.createResult (E := Demo.env) x01)
    = [x01; x00; x04; x05; x00; x01; x01].
Proof.
  split; [reflexivity |].
  exact (proj1 (proj2 (proj2 (proj2 (proj2 (proj2
    (createResult_confirmation_shape (E := Demo.env) x01 eq_refl))))))).
Defined.

(* ------------------------------------------------------------------ *)
(** ** The distributor *)

Section MuxFacts.
Context {L : mux.Lib}.
Import mux.

(** *** The loop of [WithTargets] *)

Lemma compiled_with_compiled (t : Target) (p : Regexp) :
  compiled (with_compiled t p) = true.
Proof. reflexivity. Qed.

Lemma compiles_to_compiled (c t : Target) :
  compiles_to c t -> compiled t = true.
Proof. intros [p [_ ->]]. reflexivity. Qed.

Lemma Forall2_compiles_to_compiled (cands ar : Targets) :
  Forall2 compiles_to cands ar -> forallb compiled ar = true.
Proof.
  induction 1 as [|c t cands ar Hct _ IH]; simpl; [reflexivity |].
  now rewrite (compiles_to_compiled _ _ Hct), IH.
Qed.

(** When every pattern compiles the loop appends the compiled candidates,
    in order, to the slice it started from. *)
Lemma compile_targets_ok (cands ar : Targets) :
  forallb pattern_ok cands = true ->
  exists l, compile_targets cands ar = Ok (ar ++ l) /\ Forall2 compiles_to cands l.
Proof.
  revert ar. induction cands as [|c cands IH]; intros ar Hok; simpl in *.
  - exists []. rewrite app_nil_r. split; [reflexivity | constructor].
  - apply andb_true_iff in Hok as [Hc Hrest].
    unfold pattern_ok in Hc.
    destruct (Compile (IMEIPattern c)) as [p |] eqn:Hp; [| discriminate].
    destruct (IH (ar ++ [with_compiled c p]) Hrest) as [l [Hl Hall]].
    exists (with_compiled c p :: l). split.
    + rewrite Hl, <- app_assoc. reflexivity.
    + constructor; [exists p; auto | exact Hall].
Qed.

(** The loop returns at the first pattern that does not compile. *)
Lemma compile_targets_first_bad (pre post ar : Targets) (t : Target) (cause : Err) :
  forallb pattern_ok pre = true ->
  Compile (IMEIPattern t) = Fail cause ->
  compile_targets (pre ++ t :: post) ar = Fail (ErrCompile (IMEIPattern t) cause).
Proof.
  revert ar. induction pre as [|c pre IH]; intros ar Hpre Ht; simpl in *.
  - now rewrite Ht.
  - apply andb_true_iff in Hpre as [Hc Hpre].
    unfold pattern_ok in Hc.
    destruct (Compile (IMEIPattern c)) as [p |]; [| discriminate].
    now apply IH.
Qed.

Lemma first_bad_pattern (cands : Targets) :
  forallb pattern_ok cands = false ->
  exists pre t post cause,
    cands = pre ++ t :: post /\
    forallb pattern_ok pre = true /\
    Compile (IMEIPattern t) = Fail cause.
Proof.
  induction cands as [|c cands IH]; simpl; [discriminate |].
  intros H. destruct (pattern_ok c) eqn:Hc; simpl in H.
  - destruct (IH H) as (pre & t & post & cause & -> & Hpre & Ht).
    exists (c :: pre), t, post, cause. simpl. rewrite Hc, Hpre. auto.
  - unfold pattern_ok in Hc.
    destruct (Compile (IMEIPattern c)) as [| cause] eqn:Hp; [discriminate |].
    exists [], c, cands, cause. auto.
Qed.

Lemma compile_targets_compiled (cands ar ar' : Targets) :
  forallb compiled ar = true ->
  compile_targets cands ar = Ok ar' ->
  forallb compiled ar' = true.
Proof.
  revert ar. induction cands as [|c cands IH]; intros ar Har H; simpl in H.
  - now inversion H; subst.
  - destruct (Compile (IMEIPattern c)) as [p |]; [| discriminate].
    apply IH with (ar := ar ++ [with_compiled c p]); [| exact H].
    rewrite forallb_app, Har. reflexivity.
Qed.

Lemma remove_nth_In {A : Type} (i : nat) (l : list A) (x : A) :
  In x (remove_nth i l) -> In x l.
Proof.
  revert i. induction l as [|y l IH]; intros [|i]; simpl; auto.
  intros [H | H]; [auto | right; now apply (IH i)].
Qed.

Lemma Forall_remove_nth {A : Type} (P : A -> Prop) (i : nat) (l : list A) :
  Forall P l -> Forall P (remove_nth i l).
Proof.
  intros H. apply Forall_forall. intros x Hx.
  apply (proj1 (Forall_forall P l) H). now apply (remove_nth_In i).
Qed.

Lemma nth_error_app_length {A : Type} (p r : list A) (x : A) :
  nth_error (p ++ x :: r) (List.length p) = Some x.
Proof. induction p as [|y p IH]; simpl; auto. Qed.

Lemma remove_nth_app_length {A : Type} (p r : list A) (x : A) :
  remove_nth (List.length p) (p ++ x :: r) = p ++ r.
Proof. induction p as [|y p IH]; simpl; [reflexivity | now rewrite IH]. Qed.

(** The table and every configuration a listener holds went through the
    loop of [WithTargets]. *)
Lemma reachable_all_compiled (f : distributer) :
  reachable f ->
  forallb compiled (targets f) = true /\
  Forall (fun l => forallb compiled l = true) (pending f).
Proof.
  induction 1 as [n | f ts _ IH | f i _ IH | f _ IH].
  - split; [reflexivity | constructor].
  - unfold WithTargets.
    destruct (compile_targets ts []) as [ar |] eqn:Har; [| exact IH].
    destruct (configChannel f); [| exact IH].
    destruct (listeners f); [exact IH |].
    destruct IH as [IHt IHp]. simpl. split; [exact IHt |].
    apply Forall_app. split; [exact IHp |].
    constructor; [| constructor].
    now apply (compile_targets_compiled ts [] ar).
  - destruct IH as [IHt IHp]. unfold run_set_config.
    destruct (nth_error (pending f) i) as [cfg |] eqn:Hi; [| now split].
    simpl. split.
    + apply (proj1 (Forall_forall _ _) IHp). now apply (nth_error_In _ i).
    + now apply Forall_remove_nth.
  - unfold Close. destruct (configChannel f), (sbdChannel f); exact IH.
Qed.

(** Every table the distributor ever holds went through the loop of
    [WithTargets]: no pattern and no client in it is nil. *)
Lemma reachable_compiled (f : distributer) :
  reachable f -> forallb compiled (targets f) = true.
Proof. intros H. exact (proj1 (reachable_all_compiled f H)). Qed.

(** *** Events of a dispatch *)

Lemma sent_app (ch : chan) (a b : list event) :
  sent ch (a ++ b) = sent ch a ++ sent ch b.
Proof. apply flat_map_app. Qed.

Lemma requested_app (a b : list event) :
  requested (a ++ b) = requested a ++ requested b.
Proof. apply flat_map_app. Qed.

Lemma sent_snoc (ch : chan) (pre : list event) (e : error) :
  sent ch (pre ++ [EvSend ch e]) = sent ch pre ++ [e].
Proof. rewrite sent_app. simpl. now rewrite Nat.eqb_refl. Qed.

(** The receiver gets the first value sent on its channel. *)
Lemma receive_sent (ch : chan) (evs : list event) :
  receive ch evs = hd_error (sent ch evs).
Proof.
  induction evs as [|e evs IH]; simpl; [reflexivity |].
  destruct e as [? ? ? | ? ? | ch' v]; simpl; try exact IH.
  destruct (Nat.eqb ch' ch); simpl; [reflexivity | exact IH].
Qed.

Lemma receive_snoc (ch : chan) (pre : list event) (e : error) :
  sent ch pre = [] -> receive ch (pre ++ [EvSend ch e]) = Some e.
Proof. intros H. now rewrite receive_sent, sent_snoc, H. Qed.

(** *** One target *)

(** The loop body either falls through without sending, having issued a
    request exactly when the pattern matches, or returns after one send,
    which is its last action. *)
Lemma handle_target_shape (js : list byte) (imei : string) (ch : chan)
  (t : Target) (w w' : World) (evs : list event) (fl : flow) :
  compiled t = true ->
  handle_target js imei ch t w = (evs, w', fl) ->
  (fl = Next /\
   (forall ch', sent ch' evs = []) /\
   requested evs = filter (matches imei) [t])
  \/
  (fl = Return /\
   matches imei t = true /\
   (requested evs = [t] \/ requested evs = []) /\
   exists pre e, evs = pre ++ [EvSend ch e] /\ forall ch', sent ch' pre = []).
Proof.
  unfold compiled, handle_target, matches. simpl.
  destruct (imeipattern t) as [re |]; [| discriminate].
  destruct (client t) as [c |]; [| discriminate]. intros _.
  destruct (MatchString re imei).
  - destruct (request_for t js) as [rq | e0].
    + destruct (Do c rq w) as [[rsp | e1] w1].
      * destruct (is_2xx rsp); intros H; inversion H; subst; clear H.
        -- left. repeat split; reflexivity.
        -- right. repeat split; auto.
           exists [EvDo t rq; EvLog LError (Backend t) "data not transmitted"],
             (err_of (Ok rsp)).
           split; [reflexivity | intros; reflexivity].
      * intros H; inversion H; subst; clear H.
        right. repeat split; auto.
        exists [EvDo t rq; EvLog LError (Backend t) "cannot call webhook"],
          (err_of (@Fail Response e1)).
        split; [reflexivity | intros; reflexivity].
    + intros H; inversion H; subst; clear H.
      right. repeat split; auto.
      exists [EvLog LError (Backend t) "cannot create request"], (Some e0).
      split; [reflexivity | intros; reflexivity].
  - intros H; inversion H; subst. left. repeat split; reflexivity.
Qed.

(** A matching target whose call fails: the request, the log entry and
    the send of the variable [err], then [return]. *)
Lemma handle_target_failure (js : list byte) (imei : string) (ch : chan)
  (t : Target) (w w' : World) (re : Regexp) (c : Client) (rq : Request)
  (r : res Response) :
  imeipattern t = Some re -> MatchString re imei = true ->
  client t = Some c -> request_for t js = Ok rq ->
  Do c rq w = (r, w') -> failed r = true ->
  exists msg,
    handle_target js imei ch t w =
      ([EvDo t rq; EvLog LError (Backend t) msg; EvSend ch (err_of r)],
       w', Return).
Proof.
  intros Hre Hm Hc Hrq Hdo Hf. unfold handle_target.
  rewrite Hre, Hm, Hrq, Hc, Hdo.
  destruct r as [rsp | e]; simpl in *.
  - destruct (is_2xx rsp); [discriminate |]. eexists; reflexivity.
  - eexists; reflexivity.
Qed.

(** *** The loop over the table *)

Lemma range_targets_app (js : list byte) (imei : string) (ch : chan)
  (pre post : list Target) (w w1 : World) (evs1 : list event) :
  range_targets js imei ch pre w = (evs1, w1, Next) ->
  range_targets js imei ch (pre ++ post) w =
    let '(evs2, w2, fl) := range_targets js imei ch post w1 in
    (evs1 ++ evs2, w2, fl).
Proof.
  revert w evs1. induction pre as [|t pre IH]; intros w evs1 H; simpl in *.
  - inversion H; subst.
    now destruct (range_targets js imei ch post w1) as [[? ?] ?].
  - destruct (handle_target js imei ch t w) as [[e0 w0] f0].
    destruct f0; try discriminate.
    destruct (range_targets js imei ch pre w0) as [[e2 w2] f2] eqn:Hpre.
    inversion H; subst.
    rewrite (IH _ _ Hpre).
    destruct (range_targets js imei ch post w1) as [[? ?] ?].
    now rewrite app_assoc.
Qed.

(** The requests of the loop are an initial segment of the matching
    targets, all of them when the loop runs to its end; the loop sends
    nothing when it runs to its end and exactly once, last, when it
    returns. *)
Lemma range_targets_shape (js : list byte) (imei : string) (ch : chan)
  (ts : list Target) (w w' : World) (evs : list event) (fl : flow) :
  forallb compiled ts = true ->
  range_targets js imei ch ts w = (evs, w', fl) ->
  (exists rest,
     filter (matches imei) ts = requested evs ++ rest /\
     (fl = Next -> rest = [])) /\
  ((fl = Next /\ forall ch', sent ch' evs = []) \/
   (fl = Return /\
    exists pre e, evs = pre ++ [EvSend ch e] /\ forall ch', sent ch' pre = [])).
Proof.
  revert w evs w' fl.
  induction ts as [|t ts IH]; intros w evs w' fl Hc H; simpl in H.
  - inversion H; subst. split.
    + exists []. auto.
    + left. auto.
  - simpl in Hc. apply andb_true_iff in Hc as [Ht Hts].
    destruct (handle_target js imei ch t w) as [[e0 w0] f0] eqn:H0.
    destruct (handle_target_shape _ _ _ _ _ _ _ _ Ht H0)
      as [(-> & Hs0 & Hr0) | (-> & Hm & Hr0 & pre & e & -> & Hpre)].
    + destruct (range_targets js imei ch ts w0) as [[e1 w1] f1] eqn:H1.
      inversion H; subst; clear H.
      destruct (IH _ _ _ _ Hts H1) as [[rest [Hfil Hnext]] Hsend].
      split.
      * exists rest. split; [| exact Hnext].
        change (t :: ts) with ([t] ++ ts).
        rewrite filter_app, requested_app, Hr0, Hfil, app_assoc.
        reflexivity.
      * destruct Hsend as [[-> Hs1] | [-> (pre & e & -> & Hpre)]].
        -- left. split; [reflexivity |].
           intros ch'. now rewrite sent_app, Hs0, Hs1.
        -- right. split; [reflexivity |].
           exists (e0 ++ pre), e. split; [now rewrite app_assoc |].
           intros ch'. now rewrite sent_app, Hs0, Hpre.
    + inversion H; subst; clear H. split.
      * simpl. rewrite Hm.
        destruct Hr0 as [-> | ->].
        -- exists (filter (matches imei) ts). split; [reflexivity | discriminate].
        -- exists (t :: filter (matches imei) ts).
           split; [reflexivity | discriminate].
      * right. split; [reflexivity |]. exists pre, e. auto.
Qed.

(** *** [handle] and [Handle] *)

(** With a channel that is open and a listener to receive, [Handle]
    returns the first value [handle] sends. *)
Lemma Handle_running (f : distributer) (d : InformationBucket) (ch : chan)
  (w w' : World) (pre : list event) (e : error) (fl : flow) :
  sbdChannel f = Open -> listeners f <> O ->
  handle f {| data := d; returnedError := ch |} w
    = (pre ++ [EvSend ch e], w', fl) ->
  (forall ch', sent ch' pre = []) ->
  Handle f d ch w = (Returns e, pre ++ [EvSend ch e], w').
Proof.
  intros Hopen Hl Hh Hpre. unfold Handle, distribute.
  rewrite Hopen. destruct (listeners f); [contradiction |].
  simpl. rewrite Hh. now rewrite (receive_snoc ch pre e (Hpre ch)).
Qed.

(** [handle] ends with its single send whatever the table holds. *)
Lemma handle_shape (f : distributer) (m : sbdMessage) (w : World) :
  forallb compiled (targets f) = true ->
  exists pre e w',
    handle f m w = (pre ++ [EvSend (returnedError m) e], w', Return) /\
    forall ch, sent ch pre = [].
Proof.
  intros Hc. unfold handle.
  destruct (Marshal (data m)) as [js | err].
  - destruct (range_targets js (GetIMEI (data m)) (returnedError m)
                (targets f) w) as [[evs w1] fl] eqn:Hr.
    destruct (range_targets_shape _ _ _ _ _ _ _ _ Hc Hr)
      as [_ [[-> Hs] | [-> (pre & e & -> & Hpre)]]].
    + exists evs, None, w1. auto.
    + exists pre, e, w1. auto.
  - exists [], (Some err), w. auto.
Qed.

(** C8: every run of [handle] over an installed table performs exactly one
    send on the message's own channel, as its last action: nothing is sent
    before it on any channel, the values sent on the channel are that one
    value, and the caller blocked in [Handle] is released with it. *)
Theorem handle_sends_exactly_once (f : distributer) (m : sbdMessage) (w : World) :
  forallb compiled (targets f) = true ->
  exists pre e w',
    handle f m w = (pre ++ [EvSend (returnedError m) e], w', Return) /\
    (forall ch, sent ch pre = []) /\
    sent (returnedError m) (pre ++ [EvSend (returnedError m) e]) = [e] /\
    (sbdChannel f = Open -> listeners f <> O ->
     Handle f (data m) (returnedError m) w
       = (Returns e, pre ++ [EvSend (returnedError m) e], w')).
Proof.
  intros Hc.
  destruct (handle_shape f m w Hc) as (pre & e & w' & Hh & Hpre).
  exists pre, e, w'. repeat split; auto.
  - now rewrite sent_snoc, Hpre.
  - intros Hopen Hl. destruct m as [d ch]; simpl in *.
    now apply Handle_running with (fl := Return).
Qed.

(** C10: when [json.Marshal] fails, [Handle] returns that error; [handle]
    does nothing but send it, so no request is issued, the world is as it
    was, and the result is the same for every routing table. *)
Theorem Handle_marshal_error (f : distributer) (d : InformationBucket)
  (ch : chan) (w : World) (err : Err) :
  Marshal d = Fail err ->
  sbdChannel f = Open -> listeners f <> O ->
  Handle f d ch w = (Returns (Some err), [EvSend ch (Some err)], w) /\
  requested (snd (fst (Handle f d ch w))) = [] /\
  forall ar : Targets, Handle (with_targets f ar) d ch w = Handle f d ch w.
Proof.
  intros Hm Hopen Hl.
  assert (H : forall g, sbdChannel g = Open -> listeners g <> O ->
            Handle g d ch w = (Returns (Some err), [EvSend ch (Some err)], w)).
  { intros g Hg Hlg.
    apply (Handle_running g d ch w w [] (Some err) Return Hg Hlg);
      [| reflexivity].
    unfold handle. simpl. now rewrite Hm. }
  rewrite (H f Hopen Hl).
  split; [reflexivity |]. split; [reflexivity |].
  intros ar. now apply H.
Qed.









(** *** The first failure *)

Lemma handle_target_next_silent (js : list byte) (imei : string) (ch : chan)
  (t : Target) (w w' : World) (evs : list event) :
  handle_target js imei ch t w = (evs, w', Next) ->
  forall ch', sent ch' evs = [].
Proof.
  unfold handle_target.
  destruct (imeipattern t) as [re |]; [| discriminate].
  destruct (MatchString re imei).
  - destruct (request_for t js) as [rq |]; [| discriminate].
    destruct (client t) as [c |]; [| discriminate].
    destruct (Do c rq w) as [[rsp |] w1]; [| discriminate].
    destruct (is_2xx rsp); [| discriminate].
    intros H; inversion H; subst. reflexivity.
  - intros H; inversion H; subst. reflexivity.
Qed.

(** A loop that runs to its end has sent nothing. *)
Lemma range_targets_next_silent (js : list byte) (imei : string) (ch : chan)
  (ts : list Target) (w w' : World) (evs : list event) :
  range_targets js imei ch ts w = (evs, w', Next) ->
  forall ch', sent ch' evs = [].
Proof.
  revert w evs. induction ts as [|t ts IH]; intros w evs H ch'; simpl in H.
  - inversion H; subst. reflexivity.
  - destruct (handle_target js imei ch t w) as [[e0 w0] f0] eqn:H0.
    destruct f0; try discriminate.
    destruct (range_targets js imei ch ts w0) as [[e1 w1] f1] eqn:H1.
    inversion H; subst.
    rewrite sent_app, (handle_target_next_silent _ _ _ _ _ _ _ H0),
      (IH _ _ H1). reflexivity.
Qed.

(** The loop returns at the first matching target whose call fails,
    whatever follows it in the table. *)
Lemma range_targets_stops (js : list byte) (imei : string) (ch : chan)
  (pre post : list Target) (t : Target) (w w1 w2 : World)
  (evs1 : list event) (re : Regexp) (c : Client) (rq : Request)
  (r : res Response) :
  range_targets js imei ch pre w = (evs1, w1, Next) ->
  imeipattern t = Some re -> MatchString re imei = true ->
  client t = Some c -> request_for t js = Ok rq ->
  Do c rq w1 = (r, w2) -> failed r = true ->
  exists msg,
    range_targets js imei ch (pre ++ t :: post) w =
      (evs1 ++ [EvDo t rq; EvLog LError (Backend t) msg; EvSend ch (err_of r)],
       w2, Return).
Proof.
  intros Hpre Hre Hm Hc Hrq Hdo Hf.
  destruct (handle_target_failure js imei ch t w1 w2 re c rq r
              Hre Hm Hc Hrq Hdo Hf) as [msg Ht].
  exists msg. rewrite (range_targets_app _ _ _ _ _ _ _ _ Hpre).
  simpl. now rewrite Ht.
Qed.

(** C3: let [t] be a matching target the loop reaches without having
    returned, and let its call fail (a transport error, or a response
    outside 2xx).  Then the dispatch ends there: after the request to [t]
    come only the log entry and the send, the requests issued are those
    made before [t] and the one to [t], the world is the one the call to
    [t] left, and the run is the same as with the table cut off after
    [t]. *)
Theorem handle_stops_at_first_failure (f : distributer) (m : sbdMessage)
  (w w1 w2 : World) (js : list byte) (pre post : list Target) (t : Target)
  (evs1 : list event) (re : Regexp) (c : Client) (rq : Request)
  (r : res Response) :
  Marshal (data m) = Ok js ->
  targets f = pre ++ t :: post ->
  range_targets js (GetIMEI (data m)) (returnedError m) pre w
    = (evs1, w1, Next) ->
  imeipattern t = Some re -> MatchString re (GetIMEI (data m)) = true ->
  client t = Some c -> request_for t js = Ok rq ->
  Do c rq w1 = (r, w2) -> failed r = true ->
  exists msg,
    handle f m w =
      (evs1 ++ [EvDo t rq; EvLog LError (Backend t) msg;
                EvSend (returnedError m) (err_of r)], w2, Return) /\
    requested (fst (fst (handle f m w))) = requested evs1 ++ [t] /\
    handle (with_targets f (pre ++ [t])) m w = handle f m w.
Proof.
  intros Hm Htab Hpre Hre Hmt Hc Hrq Hdo Hf.
  destruct (range_targets_stops js _ _ pre post t w w1 w2 evs1 re c rq r
              Hpre Hre Hmt Hc Hrq Hdo Hf) as [msg Hfull].
  destruct (range_targets_stops js _ _ pre [] t w w1 w2 evs1 re c rq r
              Hpre Hre Hmt Hc Hrq Hdo Hf) as [msg' Hcut].
  assert (Hh : handle f m w =
    (evs1 ++ [EvDo t rq; EvLog LError (Backend t) msg;
              EvSend (returnedError m) (err_of r)], w2, Return)).
  { unfold handle. now rewrite Hm, Htab, Hfull. }
  exists msg. split; [exact Hh |]. split.
  - rewrite Hh. simpl. now rewrite requested_app.
  - rewrite Hh. unfold handle. simpl. rewrite Hm, Hcut.
    assert (Hmsg : msg' = msg).
    { rewrite (range_targets_app _ _ _ pre (t :: post) _ _ _ Hpre) in Hfull.
      rewrite (range_targets_app _ _ _ pre [t] _ _ _ Hpre) in Hcut.
      simpl in Hfull, Hcut.
      destruct (handle_target js (GetIMEI (data m)) (returnedError m) t w1)
        as [[e0 w0] f0].
      destruct f0.
      - destruct (range_targets js (GetIMEI (data m)) (returnedError m) post w0)
          as [[? ?] ?]. simpl in Hcut.
        inversion Hcut.
      - inversion Hfull as [[H1 H2]]. inversion Hcut as [[H3 H4]].
        apply app_inv_head in H1, H3. congruence.
      - inversion Hcut. }
    now rewrite Hmsg.
Qed.

(** What the caller of [Handle] gets at the first failure is the value of
    the variable [err] left by [t.client.Do]: the transport error when
    there is one, and nil when the backend answered outside 2xx. *)
Lemma Handle_result_at_first_failure (f : distributer) (d : InformationBucket)
  (ch : chan) (w w1 w2 : World) (js : list byte) (pre post : list Target)
  (t : Target) (evs1 : list event) (re : Regexp) (c : Client) (rq : Request)
  (r : res Response) :
  sbdChannel f = Open -> listeners f <> O ->
  Marshal d = Ok js ->
  targets f = pre ++ t :: post ->
  range_targets js (GetIMEI d) ch pre w = (evs1, w1, Next) ->
  imeipattern t = Some re -> MatchString re (GetIMEI d) = true ->
  client t = Some c -> request_for t js = Ok rq ->
  Do c rq w1 = (r, w2) -> failed r = true ->
  fst (fst (Handle f d ch w)) = Returns (err_of r).
Proof.
  intros Hopen Hl Hm Htab Hpre Hre Hmt Hc Hrq Hdo Hf.
  destruct (range_targets_stops js _ _ pre post t w w1 w2 evs1 re c rq r
              Hpre Hre Hmt Hc Hrq Hdo Hf) as [msg Hfull].
  assert (Hh : handle f {| data := d; returnedError := ch |} w =
    ((evs1 ++ [EvDo t rq; EvLog LError (Backend t) msg])
       ++ [EvSend ch (err_of r)], w2, Return)).
  { unfold handle. simpl. rewrite Hm, Htab, Hfull, <- app_assoc. reflexivity. }
  rewrite (Handle_running f d ch w w2 _ _ Return Hopen Hl Hh); [reflexivity |].
  intros ch'. rewrite sent_app.
  now rewrite (range_targets_next_silent _ _ _ _ _ _ _ Hpre).
Qed.

(** X3: a transport error at the first target that fails is returned to
    the caller of [Handle]. *)
Lemma Handle_transport_error (f : distributer) (d : InformationBucket)
  (ch : chan) (w w1 w2 : World) (js : list byte) (pre post : list Target)
  (t : Target) (evs1 : list event) (re : Regexp) (c : Client) (rq : Request)
  (e : Err) :
  sbdChannel f = Open -> listeners f <> O ->
  Marshal d = Ok js ->
  targets f = pre ++ t :: post ->
  range_targets js (GetIMEI d) ch pre w = (evs1, w1, Next) ->
  imeipattern t = Some re -> MatchString re (GetIMEI d) = true ->
  client t = Some c -> request_for t js = Ok rq ->
  Do c rq w1 = (Fail e, w2) ->
  fst (fst (Handle f d ch w)) = Returns (Some e).
Proof.
  intros. now apply (Handle_result_at_first_failure f d ch w w1 w2 js pre post
                       t evs1 re c rq (Fail e)).
Qed.

(** A response outside 2xx ends the dispatch, and the caller is told nil. *)
Lemma Handle_non_2xx_nil (f : distributer) (d : InformationBucket)
  (ch : chan) (w w1 w2 : World) (js : list byte) (pre post : list Target)
  (t : Target) (evs1 : list event) (re : Regexp) (c : Client) (rq : Request)
  (rsp : Response) :
  sbdChannel f = Open -> listeners f <> O ->
  Marshal d = Ok js ->
  targets f = pre ++ t :: post ->
  range_targets js (GetIMEI d) ch pre w = (evs1, w1, Next) ->
  imeipattern t = Some re -> MatchString re (GetIMEI d) = true ->
  client t = Some c -> request_for t js = Ok rq ->
  Do c rq w1 = (Ok rsp, w2) -> is_2xx rsp = false ->
  fst (fst (Handle f d ch w)) = Returns None.
Proof.
  intros Hopen Hl Hm Htab Hpre Hre Hmt Hc Hrq Hdo H2.
  apply (Handle_result_at_first_failure f d ch w w1 w2 js pre post
           t evs1 re c rq (Ok rsp)); auto.
  simpl. now rewrite H2.
Qed.

(** X4: when the loop runs to its end, over a table in which every
    matching target answered 2xx or in which nothing matched, the caller
    is told nil, and the send of nil is the last event of the dispatch. *)
Lemma Handle_all_succeed (f : distributer) (d : InformationBucket)
  (ch : chan) (w w1 : World) (js : list byte) (evs : list event) :
  sbdChannel f = Open -> listeners f <> O ->
  Marshal d = Ok js ->
  range_targets js (GetIMEI d) ch (targets f) w = (evs, w1, Next) ->
  Handle f d ch w = (Returns None, evs ++ [EvSend ch None], w1).
Proof.
  intros Hopen Hl Hm Hr.
  apply (Handle_running f d ch w w1 evs None Return Hopen Hl).
  - unfold handle. simpl. now rewrite Hm, Hr.
  - now apply (range_targets_next_silent _ _ _ _ _ _ _ Hr).
Qed.

(** *** Configuration and shutdown *)


(** C9, as the code has it: once [Close] has returned, [Handle] panics at
    the send on the closed channel, for every message; it does not
    return, nothing is dispatched and the world is untouched. *)
Theorem Handle_after_Close_panics (f f' : distributer) (d : InformationBucket)
  (ch : chan) (w : World) :
  Close f = (Returns tt, f') ->
  Handle f' d ch w = (Panics "send on closed channel", [], w).
Proof.
  unfold Close. intros H.
  destruct (configChannel f); [| discriminate].
  destruct (sbdChannel f); [| discriminate].
  inversion H; subst. reflexivity.
Qed.

End MuxFacts.

(* ------------------------------------------------------------------ *)
(** ** More on the distributor *)

Section MuxMore.
Context {L : mux.Lib}.
Import mux.

(** *** Shared lemmas *)

Lemma is_running_inv (f : distributer) :
  is_running f = true ->
  sbdChannel f = Open /\ configChannel f = Open /\ listeners f <> O.
Proof.
  unfold is_running.
  destruct (sbdChannel f), (configChannel f), (listeners f);
    try discriminate; intros _; repeat split; discriminate.
Qed.

Lemma with_targets_same (f : distributer) : with_targets f (targets f) = f.
Proof. now destruct f. Qed.

(** What the loop of [WithTargets] returns when it returns a slice. *)
Lemma compile_targets_inv (cands ar0 ar : Targets) :
  compile_targets cands ar0 = Ok ar ->
  exists l, ar = ar0 ++ l /\ Forall2 compiles_to cands l.
Proof.
  revert ar0. induction cands as [|c cands IH]; intros ar0 H; simpl in H.
  - inversion H; subst. exists []. rewrite app_nil_r. split; [auto | constructor].
  - destruct (Compile (IMEIPattern c)) as [p |] eqn:Hp; [| discriminate].
    destruct (IH _ H) as [l [-> Hall]].
    exists (with_compiled c p :: l). split.
    + now rewrite <- app_assoc.
    + constructor; [exists p; auto | exact Hall].
Qed.

(** And the converse: candidates that compile give that slice. *)
Lemma compile_targets_Forall2 (cands l ar0 : Targets) :
  Forall2 compiles_to cands l ->
  compile_targets cands ar0 = Ok (ar0 ++ l).
Proof.
  intros H. revert ar0.
  induction H as [|c t cands l [p [Hp ->]] _ IH]; intros ar0; simpl.
  - now rewrite app_nil_r.
  - rewrite Hp, IH, <- app_assoc. reflexivity.
Qed.

Lemma compiles_to_installed (c t : Target) :
  compiles_to c t -> is_installed t.
Proof. intros [p [Hp ->]]. exists p. split; [exact Hp | reflexivity]. Qed.

Lemma Forall2_compiles_to_installed (cands ar : Targets) :
  Forall2 compiles_to cands ar -> Forall is_installed ar.
Proof.
  induction 1 as [|c t cands ar Hct _ IH]; constructor;
    [exact (compiles_to_installed c t Hct) | exact IH].
Qed.

Lemma Forall_installed_Forall2 (l : Targets) :
  Forall is_installed l -> Forall2 compiles_to l l.
Proof. induction 1; constructor; auto. Qed.

Lemma installed_compiled (l : Targets) :
  Forall is_installed l -> forallb compiled l = true.
Proof.
  intros H. apply (Forall2_compiles_to_compiled l l).
  now apply Forall_installed_Forall2.
Qed.

Lemma installed_pattern_ok (l : Targets) :
  Forall is_installed l -> forallb pattern_ok l = true.
Proof.
  induction 1 as [|t l [p [Hp _]] _ IH]; simpl; [reflexivity |].
  unfold pattern_ok at 1. now rewrite Hp, IH.
Qed.

(** [WithTargets] with a listener waiting, by the result of its loop: the
    slice is handed to the listener. *)
Lemma WithTargets_hands_over (f : distributer) (cands ar : Targets) :
  configChannel f = Open -> listeners f <> O ->
  Forall2 compiles_to cands ar ->
  WithTargets f cands = (Returns None, run_receive_config f ar).
Proof.
  intros Hc Hl Hall. unfold WithTargets.
  rewrite (compile_targets_Forall2 cands ar [] Hall), Hc. simpl.
  destruct (listeners f); [contradiction | reflexivity].
Qed.

Lemma WithTargets_bad (f : distributer) (cands : Targets) :
  forallb pattern_ok cands = false ->
  exists e, WithTargets f cands = (Returns (Some e), f).
Proof.
  intros Hbad.
  destruct (first_bad_pattern cands Hbad)
    as (pre & t & post & cause & -> & Hpre & Ht).
  exists (ErrCompile (IMEIPattern t) cause). unfold WithTargets.
  now rewrite (compile_targets_first_bad pre post [] t cause Hpre Ht).
Qed.

(** [WithTargets] leaves the table and the channels as they are. *)
Lemma WithTargets_frame (f : distributer) (cands : Targets) :
  targets (snd (WithTargets f cands)) = targets f /\
  sbdChannel (snd (WithTargets f cands)) = sbdChannel f /\
  configChannel (snd (WithTargets f cands)) = configChannel f.
Proof.
  unfold WithTargets.
  destruct (compile_targets cands []); [| auto].
  destruct (configChannel f) eqn:Hc; [| auto].
  destruct (listeners f) eqn:Hl; simpl; auto.
Qed.

(** The listener that received last assigns: the table is what it
    received, and the listener is back in the [select]. *)
Lemma run_set_config_last (f : distributer) (ar : Targets) :
  listeners f <> O ->
  run_set_config (run_receive_config f ar) (List.length (pending f))
    = {| targets := ar;
         sbdChannel := sbdChannel f;
         configChannel := configChannel f;
         listeners := listeners f;
         pending := pending f |}.
Proof.
  intros Hl. unfold run_set_config, run_receive_config. simpl.
  rewrite nth_error_app_length, remove_nth_app_length, app_nil_r. simpl.
  destruct (listeners f); [contradiction | reflexivity].
Qed.

(** The listener holding a given pending configuration assigns it. *)
Lemma run_set_config_at (f : distributer) (p r : list (list Target))
  (x : list Target) :
  pending f = p ++ x :: r ->
  run_set_config f (List.length p)
    = {| targets := x;
         sbdChannel := sbdChannel f;
         configChannel := configChannel f;
         listeners := S (listeners f);
         pending := p ++ r |}.
Proof.
  intros H. unfold run_set_config.
  now rewrite H, nth_error_app_length, remove_nth_app_length.
Qed.

Lemma run_set_config_frame (f : distributer) (i : nat) :
  sbdChannel (run_set_config f i) = sbdChannel f /\
  configChannel (run_set_config f i) = configChannel f /\
  (listeners f <= listeners (run_set_config f i))%nat.
Proof.
  unfold run_set_config.
  destruct (nth_error (pending f) i); simpl; auto.
Qed.

(** The table of every state the distributor goes through, and every
    configuration a listener holds, is installed. *)
Lemma reachable_all_installed (f : distributer) :
  reachable f ->
  Forall is_installed (targets f) /\
  Forall (Forall is_installed) (pending f).
Proof.
  induction 1 as [n | f ts _ IH | f i _ IH | f _ IH].
  - split; constructor.
  - unfold WithTargets.
    destruct (compile_targets ts []) as [ar |] eqn:Har; [| exact IH].
    destruct (configChannel f); [| exact IH].
    destruct (listeners f); [exact IH |].
    destruct IH as [IHt IHp]. simpl. split; [exact IHt |].
    apply Forall_app. split; [exact IHp |].
    constructor; [| constructor].
    destruct (compile_targets_inv ts [] ar Har) as [l [-> Hall]]. simpl.
    now apply (Forall2_compiles_to_installed ts).
  - destruct IH as [IHt IHp]. unfold run_set_config.
    destruct (nth_error (pending f) i) as [cfg |] eqn:Hi; [| now split].
    simpl. split.
    + apply (proj1 (Forall_forall _ _) IHp). now apply (nth_error_In _ i).
    + now apply Forall_remove_nth.
  - unfold Close. destruct (configChannel f), (sbdChannel f); exact IH.
Qed.

Lemma reachable_installed (f : distributer) :
  reachable f -> Forall is_installed (targets f).
Proof. intros H. exact (proj1 (reachable_all_installed f H)). Qed.

(** A loop over targets none of which matches does nothing. *)
Lemma range_targets_no_match (js : list byte) (imei : string) (ch : chan)
  (ts : list Target) (w : World) :
  forallb compiled ts = true ->
  filter (matches imei) ts = [] ->
  range_targets js imei ch ts w = ([], w, Next).
Proof.
  induction ts as [|t ts IH]; intros Hc Hf; simpl in *; [reflexivity |].
  apply andb_true_iff in Hc as [Ht Hts].
  destruct (matches imei t) eqn:Hm; [discriminate |].
  unfold handle_target. unfold compiled in Ht. unfold matches in Hm.
  destruct (imeipattern t) as [re |]; [| discriminate].
  rewrite Hm. now rewrite (IH Hts Hf).
Qed.

(** Dropping the targets that do not match changes nothing. *)
Lemma range_targets_filter (js : list byte) (imei : string) (ch : chan)
  (ts : list Target) (w : World) :
  forallb compiled ts = true ->
  range_targets js imei ch (filter (matches imei) ts) w
    = range_targets js imei ch ts w.
Proof.
  revert w. induction ts as [|t ts IH]; intros w Hc; simpl in *; [reflexivity |].
  apply andb_true_iff in Hc as [Ht Hts].
  destruct (matches imei t) eqn:Hm; simpl.
  - destruct (handle_target js imei ch t w) as [[e0 w0] f0].
    destruct f0; [| reflexivity | reflexivity].
    now rewrite (IH w0 Hts).
  - rewrite (IH w Hts).
    unfold handle_target. unfold compiled in Ht. unfold matches in Hm.
    destruct (imeipattern t) as [re |]; [| discriminate].
    rewrite Hm.
    now destruct (range_targets js imei ch ts w) as [[? ?] ?].
Qed.

(** The values under a name after one more value was added. *)
Lemma header_index_append (h : HeaderMap) (k' v k : string) :
  header_index (header_append h k' v) k
    = header_index h k ++ (if String.eqb k' k then [v] else []).
Proof.
  induction h as [|[k0 vs] h IH]; simpl.
  - now destruct (String.eqb k' k).
  - destruct (String.eqb k0 k') eqn:H0; simpl.
    + apply String.eqb_eq in H0. subst k0.
      destruct (String.eqb k' k); [reflexivity | now rewrite app_nil_r].
    + destruct (String.eqb k0 k) eqn:H1; [| exact IH].
      apply String.eqb_eq in H1. subst k0.
      rewrite String.eqb_sym, H0. now rewrite app_nil_r.
Qed.

(** The fields of the request built for a target. *)
Lemma fold_Header_Add (hs : list (string * string)) (rq : Request) :
  let rq' := fold_left (fun rq kv => Header_Add rq (fst kv) (snd kv)) hs rq in
  Method rq' = Method rq /\ URL rq' = URL rq /\ Body rq' = Body rq /\
  forall k,
    header_index (ReqHeader rq') k
      = header_index (ReqHeader rq) k
          ++ map snd
               (filter (fun kv =>
                          String.eqb (CanonicalMIMEHeaderKey (fst kv)) k) hs).
Proof.
  revert rq. induction hs as [|[k0 v] hs IH]; intros rq; simpl.
  - repeat split. intros k. now rewrite app_nil_r.
  - destruct (IH (Header_Add rq k0 v)) as (H1 & H2 & H3 & H4).
    rewrite H1, H2, H3. repeat split. intros k.
    rewrite H4. simpl. rewrite header_index_append, <- app_assoc.
    now destruct (String.eqb (CanonicalMIMEHeaderKey k0) k).
Qed.

Lemma request_for_fields (t : Target) (js : list byte) (rq : Request) :
  request_for t js = Ok rq ->
  Method rq = "POST" /\ URL rq = Backend t /\ Body rq = js /\
  forall k,
    header_index (ReqHeader rq) k
      = (if String.eqb (CanonicalMIMEHeaderKey "Content-Type") k
         then ["application/json"] else [])
          ++ map snd
               (filter (fun kv =>
                          String.eqb (CanonicalMIMEHeaderKey (fst kv)) k)
                  (Header t)).
Proof.
  unfold request_for, NewRequest.
  destruct (url_Parse (Backend t)); [discriminate |].
  intros H. inversion H; subst; clear H.
  destruct (fold_Header_Add (Header t)
              (Header_Add {| Method := MethodPost; URL := Backend t;
                             Body := js; ReqHeader := [] |}
                 "Content-Type" "application/json"))
    as (H1 & H2 & H3 & H4).
  repeat split; auto.
Qed.

Lemma handle_target_request (js : list byte) (imei : string) (ch : chan)
  (t t' : Target) (w : World) (rq : Request) :
  In (EvDo t' rq) (fst (fst (handle_target js imei ch t w))) ->
  t' = t /\ matches imei t = true /\ request_for t js = Ok rq.
Proof.
  unfold handle_target, matches.
  destruct (imeipattern t) as [re |]; [| intros []].
  destruct (MatchString re imei); [| intros []].
  destruct (request_for t js) as [rq0 | e0].
  - destruct (client t) as [c |]; [| intros []].
    destruct (Do c rq0 w) as [[rsp | e1] w1]; [destruct (is_2xx rsp) |];
      simpl; intros [H | H]; try (inversion H; subst; auto);
      repeat (destruct H as [H | H]; try discriminate H); contradiction.
  - simpl. intros [H | [H | []]]; discriminate H.
Qed.

Lemma range_targets_request (js : list byte) (imei : string) (ch : chan)
  (ts : list Target) (t : Target) (w : World) (rq : Request) :
  In (EvDo t rq) (fst (fst (range_targets js imei ch ts w))) ->
  In t ts /\ matches imei t = true /\ request_for t js = Ok rq.
Proof.
  revert w. induction ts as [|t0 ts IH]; intros w; simpl; [intros [] |].
  destruct (handle_target js imei ch t0 w) as [[e0 w0] f0] eqn:H0.
  assert (Hhead : In (EvDo t rq) e0 ->
            In t (t0 :: ts) /\ matches imei t = true /\ request_for t js = Ok rq).
  { intros Hin.
    destruct (handle_target_request js imei ch t0 t w rq) as (-> & Hm & Hrq).
    - now rewrite H0.
    - simpl. auto. }
  destruct f0; simpl; try exact Hhead.
  specialize (IH w0).
  destruct (range_targets js imei ch ts w0) as [[e1 w1] f1]. simpl in *.
  intros Hin. apply in_app_or in Hin as [Hin | Hin]; [now apply Hhead |].
  destruct (IH Hin) as (Hi & Hm & Hrq). auto.
Qed.

(** *** Properties *)

(** X1: a response counts as accepted exactly when its status code lies
    between 200 and 299. *)
Theorem is_2xx_iff (rsp : Response) :
  is_2xx rsp = true <-> 200 <= StatusCode rsp <= 299.
Proof.
  unfold is_2xx. rewrite Z.eqb_eq.
  Z.to_euclidean_division_equations. lia.
Qed.

(** X2: in every state the distributor goes through, each target of the
    table carries the compiled form of its own pattern and the client for
    its own [SkipTLS]; a dispatch over such a table never dereferences a
    nil pattern or client: it always ends by returning. *)
Theorem reachable_table_installed (f : distributer) :
  reachable f ->
  Forall is_installed (targets f) /\
  forall m w, snd (handle f m w) = Return.
Proof.
  intros Hr. pose proof (reachable_installed f Hr) as Hi.
  split; [exact Hi |]. intros m w.
  destruct (handle_shape f m w (installed_compiled _ Hi))
    as (pre & e & w' & Hh & _).
  now rewrite Hh.
Qed.

(** X5: when no target of the table matches the IMEI (an empty table
    included), [Handle] returns nil; the dispatch issues no request, does
    nothing but its send, and leaves the world as it was. *)
Theorem Handle_no_target_matches (f : distributer) (d : InformationBucket)
  (ch : chan) (w : World) (js : list byte) :
  is_running f = true ->
  forallb compiled (targets f) = true ->
  Marshal d = Ok js ->
  filter (matches (GetIMEI d)) (targets f) = [] ->
  Handle f d ch w = (Returns None, [EvSend ch None], w).
Proof.
  intros Hr Hc Hm Hf. destruct (is_running_inv f Hr) as (Hs & _ & Hl).
  apply (Handle_running f d ch w w [] None Return Hs Hl); [| reflexivity].
  unfold handle. simpl.
  now rewrite Hm, (range_targets_no_match js _ ch _ w Hc Hf).
Qed.

(** X6: the targets whose pattern does not match the IMEI have no
    influence on a dispatch: [Handle] gives the same result, events and
    world on the table reduced to its matching targets. *)
Theorem Handle_ignores_non_matching (f : distributer) (d : InformationBucket)
  (ch : chan) (w : World) :
  forallb compiled (targets f) = true ->
  Handle (with_targets f (filter (matches (GetIMEI d)) (targets f))) d ch w
    = Handle f d ch w.
Proof.
  intros Hc. unfold Handle, distribute, handle. simpl.
  destruct (Marshal d) as [js |]; [| reflexivity].
  now rewrite (range_targets_filter js (GetIMEI d) ch (targets f) w Hc).
Qed.

(** X7: every request a dispatch issues goes to a target of the table
    whose pattern matches the IMEI; it is a POST to that target's backend
    URL whose body is the serialised message.  Its header holds, under
    each name, application/json if the name is the canonical form of
    Content-Type, followed by the values of the target's static headers
    whose names have that canonical form, in the order the loop over them
    visits them; the static names themselves are kept only in canonical
    form. *)
Theorem handle_requests_well_formed (f : distributer) (m : sbdMessage)
  (w : World) (js : list byte) (t : Target) (rq : Request) :
  Marshal (data m) = Ok js ->
  In (EvDo t rq) (fst (fst (handle f m w))) ->
  In t (targets f) /\
  matches (GetIMEI (data m)) t = true /\
  Method rq = "POST" /\ URL rq = Backend t /\ Body rq = js /\
  forall k,
    header_index (ReqHeader rq) k
      = (if String.eqb (CanonicalMIMEHeaderKey "Content-Type") k
         then ["application/json"] else [])
          ++ map snd
               (filter (fun kv =>
                          String.eqb (CanonicalMIMEHeaderKey (fst kv)) k)
                  (Header t)).
Proof.
  intros Hm Hin. unfold handle in Hin. rewrite Hm in Hin.
  destruct (range_targets js (GetIMEI (data m)) (returnedError m)
              (targets f) w) as [[evs w1] fl] eqn:Hr.
  assert (Hin' : In (EvDo t rq) evs).
  { destruct fl; simpl in Hin; auto.
    apply in_app_or in Hin as [Hin | [Hin | []]]; [exact Hin | discriminate]. }
  destruct (range_targets_request js (GetIMEI (data m)) (returnedError m)
              (targets f) t w rq) as (Hi & Hmt & Hrq).
  { now rewrite Hr. }
  destruct (request_for_fields t js rq Hrq) as (H1 & H2 & H3 & H4).
  auto 10.
Qed.


(** X8: each assignment replaces the table by what the listener received,
    whole, and with two or more listeners waiting the order of two
    updates is not that of the calls: after two [WithTargets] calls have
    returned, the table is still the previous one; it ends as the second
    call's list when the listener of the first assigns first, and as the
    first call's list when the listener of the second assigns first. *)
Theorem WithTargets_replaces_table (f : distributer) (c1 c2 : Targets) :
  configChannel f = Open -> (2 <= listeners f)%nat ->
  forallb pattern_ok c1 = true ->
  forallb pattern_ok c2 = true ->
  exists ar1 ar2,
    Forall2 compiles_to c1 ar1 /\ Forall2 compiles_to c2 ar2 /\
    fst (WithTargets f c1) = Returns None /\
    fst (WithTargets (snd (WithTargets f c1)) c2) = Returns None /\
    let f2 := snd (WithTargets (snd (WithTargets f c1)) c2) in
    let n := List.length (pending f) in
    targets f2 = targets f /\
    targets (run_set_config (run_set_config f2 n) n) = ar2 /\
    targets (run_set_config (run_set_config f2 (S n)) n) = ar1.
Proof.
  intros Hopen Hl Hok1 Hok2.
  destruct (compile_targets_ok c1 [] Hok1) as [ar1 [_ Hall1]].
  destruct (compile_targets_ok c2 [] Hok2) as [ar2 [_ Hall2]].
  exists ar1, ar2.
  rewrite (WithTargets_hands_over f c1 ar1 Hopen ltac:(lia) Hall1). simpl.
  rewrite (WithTargets_hands_over (run_receive_config f ar1) c2 ar2);
    [| exact Hopen | simpl; lia | exact Hall2].
  simpl snd.
  set (f2 := run_receive_config (run_receive_config f ar1) ar2).
  repeat split; auto.
  - rewrite (run_set_config_at f2 (pending f) [ar2] ar1)
      by (simpl; now rewrite <- app_assoc).
    now rewrite (run_set_config_at _ (pending f) [] ar2).
  - replace (S (List.length (pending f)))
      with (List.length (pending f ++ [ar1]))
      by (rewrite length_app; simpl; lia).
    rewrite (run_set_config_at f2 (pending f ++ [ar1]) [] ar2)
      by reflexivity.
    rewrite app_nil_r.
    now rewrite (run_set_config_at _ (pending f) [] ar1).
Qed.

(** X9: on a distributor with no update in flight, handing the table
    returned by [Targets()] back to [WithTargets] succeeds, and once the
    listener has assigned it the distributor is exactly what it was: the
    installed targets recompile to themselves. *)
Theorem WithTargets_Targets_roundtrip (f : distributer) :
  reachable f ->
  is_running f = true ->
  pending f = [] ->
  fst (WithTargets f (distributer_Targets f)) = Returns None /\
  run_set_config (snd (WithTargets f (distributer_Targets f))) 0 = f.
Proof.
  intros Hreach Hr Hp. destruct (is_running_inv f Hr) as (_ & Hc & Hl).
  unfold distributer_Targets.
  rewrite (WithTargets_hands_over f (targets f) (targets f) Hc Hl).
  - split; [reflexivity |]. simpl.
    replace 0%nat with (List.length (pending f)) by now rewrite Hp.
    rewrite (run_set_config_last f (targets f) Hl). now destruct f.
  - apply Forall_installed_Forall2. now apply reachable_installed.
Qed.

(** X10: once [Close] has returned the distributor is unusable: a
    [WithTargets] whose patterns all compile panics at the send on the
    closed channel, a second [Close] panics, and in both cases the table
    stays as it was; a [WithTargets] with a pattern that does not compile
    still returns its error, since the patterns are compiled before
    anything is sent. *)
Theorem WithTargets_after_Close (f f' : distributer) (cands : Targets) :
  Close f = (Returns tt, f') ->
  (forallb pattern_ok cands = true ->
   WithTargets f' cands = (Panics "send on closed channel", f')) /\
  (forallb pattern_ok cands = false ->
   exists e, WithTargets f' cands = (Returns (Some e), f')) /\
  Close f' = (Panics "close of closed channel", f') /\
  targets f' = targets f.
Proof.
  unfold Close. intros H.
  destruct (configChannel f); [| discriminate].
  destruct (sbdChannel f); [| discriminate].
  inversion H; subst; clear H. repeat split.
  - intros Hok. destruct (compile_targets_ok cands [] Hok) as [ar [Har _]].
    unfold WithTargets. now rewrite Har.
  - apply WithTargets_bad.
Qed.

End MuxMore.

(* ------------------------------------------------------------------ *)
(** ** The logging handler *)

Section HandlerFacts.
Context {E : sbd.Env}.
Import sbd sbd_handlers.

Variable Marshal : InformationBucket -> res (list byte).

(** X11: a connection served through [Logger].  When the decoded message
    cannot be serialised the wrapped handler has no part in what happens:
    the reply carries status 0, the world is the one decoding left, and
    any other wrapped handler gives the same run.  When it can be
    serialised the run is that of the wrapped handler served directly. *)
Theorem serve_Logger (next : Handler) (c : Conn) (w w1 : World)
  (el : InformationBucket) :
  GetElements c w = (Ok el, w1) ->
  (forall err, Marshal el = Fail err ->
     writes (fst (serve (Logger Marshal next) c w)) = [createResult x00] /\
     snd (serve (Logger Marshal next) c w) = w1 /\
     forall next' : Handler,
       serve (Logger Marshal next') c w = serve (Logger Marshal next) c w) /\
  (forall js, Marshal el = Ok js ->
     serve (Logger Marshal next) c w = serve next c w).
Proof.
  intros Hg. split.
  - intros err Hm.
    unfold serve, Logger, HandlerFunc_Handle. rewrite Hg, Hm. simpl.
    repeat split.
  - intros js Hm.
    unfold serve, Logger, HandlerFunc_Handle. now rewrite Hg, Hm.
Qed.

End HandlerFacts.

(* ------------------------------------------------------------------ *)
(** ** The service watcher *)

Section WatchFacts.
Context {L : mux.Lib}.
Import mux directipserver.

(** *** Shared lemmas *)

(** With a listener waiting [WithTargets] returns, with or without an
    error, and the watcher goes on. *)
Lemma logged_WithTargets (s : distributer) (l : Targets) :
  configChannel s = Open -> listeners s <> O ->
  logged (WithTargets s l) = (Returns tt, snd (WithTargets s l)).
Proof.
  intros Hc Hl. destruct (forallb pattern_ok l) eqn:Hok.
  - destruct (compile_targets_ok l [] Hok) as [ar [_ Hall]].
    now rewrite (WithTargets_hands_over s l ar Hc Hl Hall).
  - destruct (WithTargets_bad s l Hok) as [e ->]. reflexivity.
Qed.

Lemma WithTargets_listeners (f : distributer) (cands : Targets) :
  (pred (listeners f) <= listeners (snd (WithTargets f cands)))%nat.
Proof.
  unfold WithTargets, run_receive_config.
  destruct (compile_targets cands []); [| simpl; lia].
  destruct (configChannel f); [| simpl; lia].
  destruct (listeners f); simpl; lia.
Qed.

Lemma set_configs_facts (s : distributer) (order : list nat) :
  reachable s ->
  reachable (set_configs s order) /\
  configChannel (set_configs s order) = configChannel s /\
  (listeners s <= listeners (set_configs s order))%nat.
Proof.
  revert s. induction order as [|i order IH]; intros s Hr; simpl.
  - auto.
  - destruct (IH (run_set_config s i) (reach_set_config s i Hr))
      as (H1 & H2 & H3).
    destruct (run_set_config_frame s i) as (_ & H5 & H6).
    split; [exact H1 |]. split; [congruence | lia].
Qed.


Lemma filter_installed (keep : Target -> bool) (l : Targets) :
  Forall is_installed l -> Forall is_installed (filter keep l).
Proof.
  intros H. apply Forall_forall. intros t Hin.
  apply filter_In in Hin as [Hin _].
  now apply (proj1 (Forall_forall _ _) H).
Qed.




Lemma compile_append (l : Targets) (t : Target) (p : Regexp) :
  Forall is_installed l ->
  Compile (IMEIPattern t) = Ok p ->
  Forall2 compiles_to (l ++ [t]) (l ++ [with_compiled t p]).
Proof.
  intros Hl Hp. apply Forall2_app.
  - now apply Forall_installed_Forall2.
  - constructor; [exists p; auto | constructor].
Qed.

(** One event whose object is a service, with a listener waiting: the
    watcher goes on. *)
Lemma watch_event_goes_on (targets : Targets) (s : distributer)
  (event : Event) :
  reachable s -> configChannel s = Open -> listeners s <> O ->
  carries_service event = true ->
  exists s',
    watch_event targets s event = (Returns tt, s') /\
    reachable s' /\ configChannel s' = Open /\
    (pred (listeners s) <= listeners s')%nat.
Proof.
  intros Hreach Hc Hl Hobj. unfold carries_service in Hobj.
  unfold watch_event.
  destruct (Object event) as [svc |]; [| discriminate].
  assert (Hsame : exists s', (Returns tt, s) = (Returns tt, s') /\
             reachable s' /\ configChannel s' = Open /\
             (pred (listeners s) <= listeners s')%nat).
  { exists s. repeat split; auto. lia. }
  assert (Hw : forall l, exists s',
             logged (WithTargets s l) = (Returns tt, s') /\
             reachable s' /\ configChannel s' = Open /\
             (pred (listeners s) <= listeners s')%nat).
  { intros l. exists (snd (WithTargets s l)). split; [| split; [| split]].
    - now apply logged_WithTargets.
    - now constructor.
    - destruct (WithTargets_frame s l) as (_ & _ & H). congruence.
    - apply WithTargets_listeners. }
  destruct (EvType event); try exact Hsame.
  - destruct (targetFromService svc); [apply Hw | exact Hsame].
  - destruct (targetFromService svc); [apply Hw | exact Hsame].
  - apply Hw.
Qed.

(** *** Properties *)

(** X12: [targetFromService] yields a target exactly when the service has
    the IMEI annotation and a cluster IP.  The target is then an
    uncompiled candidate keyed by the UID of the service, with the
    annotation as its pattern, TLS verification on and no static headers;
    its backend is http://ip:port/path, where the port is that of the
    port annotation, or 8080 when that annotation is missing or empty,
    and the path is that of the path annotation, or / when that
    annotation is missing or empty. *)
Theorem targetFromService_spec (svc : Service) :
  let a := Annotations svc in
  let port := index a "protegear.io/directip-port" in
  let path := index a "protegear.io/directip-path" in
  (targetFromService svc = None <->
   lookup "protegear.io/directip-imei" a = None \/ ClusterIP svc = "") /\
  (forall t, targetFromService svc = Some t ->
     ID t = UID svc /\
     lookup "protegear.io/directip-imei" a = Some (IMEIPattern t) /\
     SkipTLS t = false /\ Header t = [] /\
     imeipattern t = None /\ client t = None /\
     Backend t
       = ("http://" ++ ClusterIP svc ++ ":"
          ++ (if String.eqb port "" then "8080" else port)
          ++ (if String.eqb path "" then "/" else path))%string).
Proof.
  intros a port path. subst a port path. unfold targetFromService.
  destruct (lookup "protegear.io/directip-imei" (Annotations svc)) as [pat |].
  - destruct (String.eqb (ClusterIP svc) "") eqn:Hip.
    + apply String.eqb_eq in Hip. split.
      * split; auto.
      * discriminate.
    + apply String.eqb_neq in Hip. split.
      * split; [discriminate | intros [H | H]; [discriminate | contradiction]].
      * intros t H. inversion H; subst; clear H. simpl.
        repeat split.
  - split; [split; auto | discriminate].
Qed.

(** X13: a Deleted event, handled with a listener waiting.  The update
    handed to a listener is the table the iteration read without the
    targets whose ID is the UID of the service, the others kept in their
    order; it cannot be rejected, since every target kept was compiled
    from its own pattern before.  At the return of the call the table is
    still what it was; when the listener assigns, the table is that
    list. *)
Theorem watch_Deleted (targets_read : Targets) (s : distributer)
  (svc : Service) :
  Forall is_installed targets_read ->
  configChannel s = Open -> listeners s <> O ->
  let event := {| EvType := Deleted; Object := Some svc |} in
  let kept :=
    filter (fun t => negb (String.eqb (ID t) (UID svc))) targets_read in
  watch_event targets_read s event
    = (Returns tt,
       {| targets := targets s;
          sbdChannel := sbdChannel s;
          configChannel := configChannel s;
          listeners := pred (listeners s);
          pending := pending s ++ [kept] |}) /\
  targets (run_set_config (snd (watch_event targets_read s event))
             (List.length (pending s))) = kept /\
  forall t, In t kept <-> In t targets_read /\ ID t <> UID svc.
Proof.
  intros Hi Hc Hl event kept. subst event.
  assert (Hw : watch_event targets_read s
                 {| EvType := Deleted; Object := Some svc |}
               = (Returns tt, run_receive_config s kept)).
  { unfold watch_event. simpl.
    rewrite (WithTargets_hands_over s _ kept Hc Hl); [reflexivity |].
    apply Forall_installed_Forall2. now apply filter_installed. }
  rewrite Hw. split; [reflexivity |]. split.
  - simpl. now rewrite (run_set_config_last s kept Hl).
  - intros t. unfold kept. rewrite filter_In, negb_true_iff.
    now rewrite String.eqb_neq.
Qed.

(** X14: an Added event, handled with a listener waiting.  A service that
    yields no target changes nothing.  For a target whose pattern
    compiles, the update handed to a listener is the table the iteration
    read followed by the compiled target, also when a target with the
    same ID is in that table; the table changes only when the listener
    assigns.  A target whose pattern does not compile leaves the
    distributor as it was, and the watcher goes on. *)
Theorem watch_Added (targets_read : Targets) (s : distributer)
  (svc : Service) :
  Forall is_installed targets_read ->
  configChannel s = Open -> listeners s <> O ->
  let event := {| EvType := Added; Object := Some svc |} in
  match targetFromService svc with
  | None => watch_event targets_read s event = (Returns tt, s)
  | Some t =>
      (forall p, Compile (IMEIPattern t) = Ok p ->
         watch_event targets_read s event
           = (Returns tt,
              {| targets := targets s;
                 sbdChannel := sbdChannel s;
                 configChannel := configChannel s;
                 listeners := pred (listeners s);
                 pending :=
                   pending s ++ [targets_read ++ [with_compiled t p]] |}) /\
         targets (run_set_config (snd (watch_event targets_read s event))
                    (List.length (pending s)))
           = targets_read ++ [with_compiled t p]) /\
      (pattern_ok t = false ->
       watch_event targets_read s event = (Returns tt, s))
  end.
Proof.
  intros Hi Hc Hl event. subst event. unfold watch_event. simpl.
  destruct (targetFromService svc) as [t |]; [| reflexivity].
  split.
  - intros p Hp.
    rewrite (WithTargets_hands_over s _ _ Hc Hl (compile_append _ t p Hi Hp)).
    split; [reflexivity |]. simpl.
    now rewrite (run_set_config_last s _ Hl).
  - intros Hbad. unfold pattern_ok in Hbad.
    destruct (Compile (IMEIPattern t)) as [| cause] eqn:Hp; [discriminate |].
    unfold WithTargets.
    now rewrite (compile_targets_first_bad targets_read [] [] t cause
                   (installed_pattern_ok _ Hi) Hp).
Qed.


Lemma watch_events_fed (s : distributer) (turns : list turn) :
  reachable s -> configChannel s = Open ->
  forallb carries_service (map turn_event turns) = true ->
  (List.length turns <= listeners s)%nat ->
  exists s',
    watch_events s turns = (Returns tt, s') /\
    reachable s' /\ configChannel s' = Open.
Proof.
  revert s. induction turns as [|tn turns IH]; intros s Hreach Hc Hall Hn.
  - exists s. simpl. auto.
  - simpl in Hall, Hn. apply andb_true_iff in Hall as [Hev Hall].
    destruct (set_configs_facts s (before_read tn) Hreach) as (R1 & C1 & L1).
    destruct (set_configs_facts _ (before_send tn) R1) as (R2 & C2 & L2).
    destruct (watch_event_goes_on
                (distributer_Targets (set_configs s (before_read tn)))
                (set_configs (set_configs s (before_read tn)) (before_send tn))
                (turn_event tn) R2) as (s3 & H3 & R3 & C3 & L3); auto.
    + congruence.
    + lia.
    + destruct (IH s3 R3 C3 Hall) as (s' & H' & Hrest); [lia |].
      exists s'. simpl. rewrite H3. auto.
Qed.

(** One event whose object is a service, whatever the listeners do: the
    iteration returns, or its send waits for a listener; it does not
    panic. *)
Lemma watch_event_no_panic (targets : Targets) (s : distributer)
  (event : Event) :
  reachable s -> configChannel s = Open ->
  carries_service event = true ->
  exists s',
    (watch_event targets s event = (Returns tt, s') \/
     watch_event targets s event = (Blocks, s')) /\
    reachable s' /\ configChannel s' = Open.
Proof.
  intros Hreach Hc Hobj. unfold carries_service in Hobj.
  unfold watch_event.
  destruct (Object event) as [svc |]; [| discriminate].
  assert (Hsame : exists s', ((Returns tt, s) = (Returns tt, s') \/
                              (Returns tt, s) = (Blocks, s')) /\
             reachable s' /\ configChannel s' = Open).
  { exists s. auto. }
  assert (Hw : forall l, exists s',
             (logged (WithTargets s l) = (Returns tt, s') \/
              logged (WithTargets s l) = (Blocks, s')) /\
             reachable s' /\ configChannel s' = Open).
  { intros l. exists (snd (WithTargets s l)). split; [| split].
    - unfold WithTargets. destruct (compile_targets l []); [| now left].
      rewrite Hc. destruct (listeners s); [now right | now left].
    - now constructor.
    - destruct (WithTargets_frame s l) as (_ & _ & H). congruence. }
  destruct (EvType event); try exact Hsame.
  - destruct (targetFromService svc); [apply Hw | exact Hsame].
  - destruct (targetFromService svc); [apply Hw | exact Hsame].
  - apply Hw.
Qed.

Lemma watch_events_no_panic (s : distributer) (turns : list turn) :
  reachable s -> configChannel s = Open ->
  forallb carries_service (map turn_event turns) = true ->
  exists s',
    (watch_events s turns = (Returns tt, s') \/
     watch_events s turns = (Blocks, s')) /\
    reachable s' /\ configChannel s' = Open.
Proof.
  revert s. induction turns as [|tn turns IH]; intros s Hreach Hc Hall.
  - exists s. simpl. auto.
  - simpl in Hall. apply andb_true_iff in Hall as [Hev Hall].
    destruct (set_configs_facts s (before_read tn) Hreach) as (R1 & C1 & L1).
    destruct (set_configs_facts _ (before_send tn) R1) as (R2 & C2 & L2).
    destruct (watch_event_no_panic
                (distributer_Targets (set_configs s (before_read tn)))
                (set_configs (set_configs s (before_read tn)) (before_send tn))
                (turn_event tn) R2) as (s3 & [H3 | H3] & R3 & C3); auto.
    + congruence.
    + destruct (IH s3 R3 C3 Hall) as (s' & H' & Hrest).
      exists s'. simpl. rewrite H3. auto.
    + exists s3. simpl. rewrite H3. auto.
Qed.

(** X16: the watcher over any sequence of events whose objects are
    services, however its iterations are scheduled among the listeners'
    assignments.  No update panics and a rejected update is passed over:
    the loop runs to the end of the events, or one of its sends waits for
    a listener, and in both cases the distributor it has reached is one
    whose table is an installed one.  When at least as many listeners
    wait at the start as there are events, no send waits and the loop
    runs to the end. *)
Theorem watch_events_go_on (s : distributer) (turns : list turn) :
  reachable s -> configChannel s = Open ->
  forallb carries_service (map turn_event turns) = true ->
  (exists s',
     (watch_events s turns = (Returns tt, s') \/
      watch_events s turns = (Blocks, s')) /\
     reachable s' /\ configChannel s' = Open /\
     Forall is_installed (targets s')) /\
  ((List.length turns <= listeners s)%nat ->
   exists s', watch_events s turns = (Returns tt, s')).
Proof.
  intros Hreach Hc Hall. split.
  - destruct (watch_events_no_panic s turns Hreach Hc Hall)
      as (s' & H & R & C).
    exists s'. repeat split; auto. now apply reachable_installed.
  - intros Hn.
    destruct (watch_events_fed s turns Hreach Hc Hall Hn) as (s' & H & _).
    now exists s'.
Qed.

End WatchFacts.

(* ------------------------------------------------------------------ *)
(** ** Runs on explicit inputs *)

Import mux Demo.

(** Two candidates, one of them with a pattern that does not compile,
    offered to a distributor that holds [targetB]: the error names the
    pattern and the table still holds [targetB] alone. *)
Example WithTargets_one_bad_pattern :
  WithTargets (running [targetB]) [targetA; targetBad]
    = (Returns (Some (ErrCompile "("
                        (ErrLib "error parsing regexp: missing closing )"))),
       running [targetB]) /\
  targets (running [targetB]) = [installed targetB].
Proof. split; reflexivity. Qed.




(** The example as the specification words it: one request, to
    [targetA], nothing to [targetB]. *)
Example handle_one_matching_target :
  requested (fst (fst (handle (running [targetA; targetB])
                         (submitted message) 0%nat)))
    = [installed targetA].
Proof. reflexivity. Qed.

(** [targetB300] answers 500 between two targets that would accept: the
    second of them is never asked. *)
Lemma handle_stops_at_first_failure_witness :
  requested (fst (fst (handle (running [targetA; targetB300; targetA])
                         (submitted message) 0%nat)))
    = [installed targetA; installed targetB300].
Proof.
  destruct (handle_stops_at_first_failure
              (running [targetA; targetB300; targetA]) (submitted message)
              0%nat 1%nat 2%nat []
              [installed targetA] [installed targetA] (installed targetB300)
              [EvDo (installed targetA) (request_to targetA);
               EvLog LInfo "http://a.example/hook" "data transmitted"]
              "^300" {| InsecureSkipVerify := false |}
              (request_to targetB300) (Ok response_500)
              eq_refl eq_refl eq_refl eq_refl eq_refl eq_refl eq_refl
              eq_refl eq_refl)
    as (msg & _ & H & _).
  exact H.
Defined.

Lemma handle_sends_exactly_once_witness :
  forallb compiled (targets (running [targetA; targetDown])) = true /\
  exists e,
    sent 7%nat (fst (fst (handle (running [targetA; targetDown])
                            (submitted message) 0%nat))) = [e].
Proof.
  split; [reflexivity |].
  destruct (handle_sends_exactly_once (running [targetA; targetDown])
              (submitted message) 0%nat eq_refl)
    as (pre & e & w' & Hh & _ & Hs & _).
  exists e. rewrite Hh. exact Hs.
Defined.

Lemma Handle_marshal_error_witness :
  Marshal bad_message = Fail (ErrLib "json: unsupported value") /\
  Handle (running [targetA]) bad_message 7%nat 0%nat
    = (Returns (Some (ErrLib "json: unsupported value")),
       [EvSend 7%nat (Some (ErrLib "json: unsupported value"))], 0%nat).
Proof.
  split; [reflexivity |].
  apply (Handle_marshal_error (running [targetA]) bad_message 7%nat 0%nat
           (ErrLib "json: unsupported value") eq_refl eq_refl).
  discriminate.
Defined.

(** [Handle] after [Close], on a distributor that was running. *)
Lemma Handle_after_Close_panics_witness :
  Close (running [targetA])
    = (Returns tt, snd (Close (running [targetA]))) /\
  Handle (snd (Close (running [targetA]))) message 7%nat 0%nat
    = (Panics "send on closed channel", [], 0%nat).
Proof.
  split; [reflexivity |].
  apply (Handle_after_Close_panics (running [targetA])). reflexivity.
Defined.

(** C9 as stated does not hold: [Close] returns, and the [Handle] call
    that follows ends in a panic; it does not block. *)
Lemma Handle_after_Close_does_not_block :
  fst (Close (running [targetA])) = Returns tt /\
  fst (fst (Handle (snd (Close (running [targetA]))) message 7%nat 0%nat))
    = Panics "send on closed channel" /\
  fst (fst (Handle (snd (Close (running [targetA]))) message 7%nat 0%nat))
    <> Blocks.
Proof. repeat split; discriminate. Qed.

(** C1 fails on the code where a matching target answers outside 2xx: the
    only matching target answers 500, the dispatch logs that the data was
    not transmitted and sends the variable [err], which holds the nil
    error of the [Do] call that succeeded; [Handle] returns nil, not the
    error of the failing target. *)
Example Handle_status_500_returns_nil :
  Do {| InsecureSkipVerify := false |} (request_to targetB300) 0%nat
    = (Ok response_500, 1%nat) /\
  is_2xx response_500 = false /\
  Handle (running [targetB300]) message 7%nat 0%nat
    = (Returns None,
       [EvDo (installed targetB300) (request_to targetB300);
        EvLog LError "http://b.example/hook" "data not transmitted";
        EvSend 7%nat None],
       1%nat).
Proof. repeat split. Qed.

(** A transport error, by contrast, reaches the caller. *)
Example Handle_connection_refused :
  fst (fst (Handle (running [targetDown]) message 7%nat 0%nat))
    = Returns (Some (ErrLib "dial tcp: connection refused")).
Proof. reflexivity. Qed.

(** A matching target whose backend URL [http.NewRequest] rejects: the
    dispatch returns that error before any request, and the target after
    it is not asked. *)
Example Handle_unusable_backend_url :
  Handle (running [targetNoURL; targetA]) message 7%nat 0%nat
    = (Returns (Some (ErrLib "missing protocol scheme")),
       [EvLog LError ":" "cannot create request";
        EvSend 7%nat (Some (ErrLib "missing protocol scheme"))],
       0%nat).
Proof. reflexivity. Qed.

(** No target matches: nothing is requested and the caller is told nil. *)
Example Handle_no_match :
  Handle (running [targetB]) message 7%nat 0%nat
    = (Returns None, [EvSend 7%nat None], 0%nat).
Proof. reflexivity. Qed.

(* ------------------------------------------------------------------ *)
(** ** More runs on explicit inputs *)

Lemma reachable_table_installed_witness :
  reachable (running [targetA; targetB]) /\
  Forall is_installed (targets (running [targetA; targetB])) /\
  snd (handle (running [targetA; targetB]) (submitted message) 0%nat) = Return.
Proof.
  assert (Hreach : reachable (running [targetA; targetB])).
  { exact (reach_set_config _ 0 (reach_WithTargets _ _ (reach_New 1))). }
  split; [exact Hreach |].
  destruct (reachable_table_installed _ Hreach) as [Hi Hh].
  split; [exact Hi | apply Hh].
Defined.

(** Nothing listens at the second of three matching targets. *)
Lemma Handle_transport_error_witness :
  fst (fst (Handle (running [targetA; targetDown; targetA]) message
              7%nat 0%nat))
    = Returns (Some (ErrLib "dial tcp: connection refused")).
Proof.
  apply (Handle_transport_error
           (running [targetA; targetDown; targetA]) message 7%nat
           0%nat 1%nat 2%nat []
           [installed targetA] [installed targetA] (installed targetDown)
           [EvDo (installed targetA) (request_to targetA);
            EvLog LInfo "http://a.example/hook" "data transmitted"]
           "^300" {| InsecureSkipVerify := false |}
           (request_to targetDown)
           (ErrLib "dial tcp: connection refused"));
    solve [reflexivity | discriminate].
Defined.

Lemma Handle_all_succeed_witness :
  Handle (running [targetA; targetB]) message 7%nat 0%nat
    = (Returns None,
       [EvDo (installed targetA) (request_to targetA);
        EvLog LInfo "http://a.example/hook" "data transmitted";
        EvSend 7%nat None],
       1%nat).
Proof.
  apply (Handle_all_succeed (running [targetA; targetB]) message 7%nat
           0%nat 1%nat []
           [EvDo (installed targetA) (request_to targetA);
            EvLog LInfo "http://a.example/hook" "data transmitted"]);
    solve [reflexivity | discriminate].
Defined.

Lemma Handle_no_target_matches_witness :
  filter (matches "3004340635") (targets (running [targetB; targetB])) = [] /\
  Handle (running [targetB; targetB]) message 7%nat 0%nat
    = (Returns None, [EvSend 7%nat None], 0%nat).
Proof.
  split; [reflexivity |].
  apply (Handle_no_target_matches (running [targetB; targetB]) message
           7%nat 0%nat []); reflexivity.
Defined.

Lemma Handle_ignores_non_matching_witness :
  Handle (running [targetA; targetDown]) message 7%nat 0%nat
    = Handle (running [targetB; targetA; targetB; targetDown; targetB])
        message 7%nat 0%nat.
Proof.
  apply (Handle_ignores_non_matching
           (running [targetB; targetA; targetB; targetDown; targetB])
           message 7%nat 0%nat).
  reflexivity.
Defined.

(** [targetKeyed] has three static headers: two spellings of one name,
    and the name of the content type. *)
Lemma handle_requests_well_formed_witness :
  exists rq,
    fst (fst (handle (running [targetB; targetKeyed]) (submitted message)
                0%nat))
      = [EvDo (installed targetKeyed) rq;
         EvLog LInfo "http://a.example/hook" "data transmitted";
         EvSend 7%nat None] /\
    Method rq = "POST" /\ URL rq = "http://a.example/hook" /\ Body rq = [] /\
    header_index (ReqHeader rq) "X-Api-Key" = ["secret"; "other"] /\
    header_index (ReqHeader rq) "Content-Type"
      = ["application/json"; "text/plain"] /\
    header_index (ReqHeader rq) "x-api-key" = [] /\
    header_index (ReqHeader rq) "content-type" = [].
Proof.
  exists {| Method := "POST";
            URL := "http://a.example/hook";
            Body := [];
            ReqHeader := [("Content-Type", ["application/json"; "text/plain"]);
                          ("X-Api-Key", ["secret"; "other"])] |}.
  split; [reflexivity |].
  destruct (handle_requests_well_formed
              (running [targetB; targetKeyed]) (submitted message) 0%nat []
              (installed targetKeyed)
              {| Method := "POST";
                 URL := "http://a.example/hook";
                 Body := [];
                 ReqHeader :=
                   [("Content-Type", ["application/json"; "text/plain"]);
                    ("X-Api-Key", ["secret"; "other"])] |}
              eq_refl (or_introl eq_refl))
    as (_ & _ & Hm & Hu & Hb & Hh).
  split; [exact Hm |]. split; [exact Hu |]. split; [exact Hb |].
  split; [exact (Hh "X-Api-Key") |].
  split; [exact (Hh "Content-Type") |].
  split; [exact (Hh "x-api-key") | exact (Hh "content-type")].
Defined.

(** Two updates handed to two listeners. *)
Lemma WithTargets_replaces_table_witness :
  configChannel (New 2) = Open /\
  (2 <= listeners (New 2))%nat /\
  exists ar1 ar2,
    Forall2 compiles_to [targetA] ar1 /\
    Forall2 compiles_to [targetB] ar2 /\
    fst (WithTargets (New 2) [targetA]) = Returns None /\
    fst (WithTargets (snd (WithTargets (New 2) [targetA])) [targetB])
      = Returns None /\
    targets (snd (WithTargets (snd (WithTargets (New 2) [targetA]))
                    [targetB])) = [] /\
    targets (run_set_config
               (run_set_config
                  (snd (WithTargets (snd (WithTargets (New 2) [targetA]))
                          [targetB])) 0) 0) = ar2 /\
    targets (run_set_config
               (run_set_config
                  (snd (WithTargets (snd (WithTargets (New 2) [targetA]))
                          [targetB])) 1) 0) = ar1.
Proof.
  split; [reflexivity |]. split; [simpl; lia |].
  exact (WithTargets_replaces_table (New 2) [targetA] [targetB]
           eq_refl ltac:(simpl; lia) eq_refl eq_refl).
Defined.

(** The same run, evaluated: the table that is left is that of the
    update whose listener assigned last. *)
Example WithTargets_landing_order :
  targets (run_set_config
             (run_set_config
                (snd (WithTargets (snd (WithTargets (New 2) [targetA]))
                        [targetB])) 0) 0) = [installed targetB] /\
  targets (run_set_config
             (run_set_config
                (snd (WithTargets (snd (WithTargets (New 2) [targetA]))
                        [targetB])) 1) 0) = [installed targetA].
Proof. split; reflexivity. Qed.

Lemma WithTargets_Targets_roundtrip_witness :
  is_running (running [targetA; targetB]) = true /\
  pending (running [targetA; targetB]) = [] /\
  fst (WithTargets (running [targetA; targetB])
         (distributer_Targets (running [targetA; targetB])))
    = Returns None /\
  run_set_config
    (snd (WithTargets (running [targetA; targetB])
            (distributer_Targets (running [targetA; targetB])))) 0
    = running [targetA; targetB].
Proof.
  split; [reflexivity |]. split; [reflexivity |].
  apply WithTargets_Targets_roundtrip; [| reflexivity | reflexivity].
  exact (reach_set_config _ 0 (reach_WithTargets _ _ (reach_New 1))).
Defined.

Lemma WithTargets_after_Close_witness :
  WithTargets (snd (Close (running [targetA]))) [targetB]
    = (Panics "send on closed channel", snd (Close (running [targetA]))) /\
  fst (WithTargets (snd (Close (running [targetA]))) [targetBad])
    = Returns (Some (ErrCompile "("
                       (ErrLib "error parsing regexp: missing closing )"))) /\
  targets (snd (Close (running [targetA]))) = [installed targetA].
Proof.
  destruct (WithTargets_after_Close (running [targetA])
              (snd (Close (running [targetA]))) [targetB] eq_refl)
    as (Hok & _ & _ & Ht).
  split; [exact (Hok eq_refl) |]. split; [reflexivity | exact Ht].
Defined.

(** A connection served through [Logger]: with a serialiser that rejects
    the message, and with the one of the concrete environment. *)
Lemma serve_Logger_witness :
  sbd.writes
    (fst (sbd.serve
            (sbd_handlers.Logger (fun _ => Fail (ErrLib "json: unsupported value"))
               accept_all) [x01] tt))
    = [sbd.createResult x00] /\
  sbd.serve (sbd_handlers.Logger marshal accept_all) [x01] tt
    = sbd.serve accept_all [x01] tt.
Proof.
  split.
  - exact (proj1 (proj1 (serve_Logger
                           (fun _ => Fail (ErrLib "json: unsupported value"))
                           accept_all [x01] tt tt _ eq_refl)
                    (ErrLib "json: unsupported value") eq_refl)).
  - exact (proj2 (serve_Logger marshal accept_all [x01] tt tt _ eq_refl)
             [x01] eq_refl).
Defined.

(** Services with every combination of the port and path annotations,
    and one without the pattern annotation. *)
Lemma targetFromService_spec_witness :
  directipserver.targetFromService (service "svc-1" "^300" "10.0.0.7")
    = Some (candidate "svc-1" "^300" "http://10.0.0.7:8080/") /\
  (forall t,
     directipserver.targetFromService
       (service_with [("protegear.io/directip-port", "9000")]
          "svc-2" "^300" "10.0.0.7") = Some t ->
     Backend t = "http://10.0.0.7:9000/") /\
  (forall t,
     directipserver.targetFromService
       (service_with [("protegear.io/directip-path", "/in")]
          "svc-3" "^300" "10.0.0.7") = Some t ->
     Backend t = "http://10.0.0.7:8080/in") /\
  (forall t,
     directipserver.targetFromService
       (service_with [("protegear.io/directip-path", "/in");
                      ("protegear.io/directip-port", "9000")]
          "svc-4" "^300" "10.0.0.7") = Some t ->
     Backend t = "http://10.0.0.7:9000/in" /\ ID t = "svc-4") /\
  directipserver.targetFromService plain_service = None.
Proof.
  split; [reflexivity |]. split; [| split; [| split]].
  - intros t Ht.
    exact (proj2 (proj2 (proj2 (proj2 (proj2 (proj2
             (proj2 (targetFromService_spec _) t Ht))))))).
  - intros t Ht.
    exact (proj2 (proj2 (proj2 (proj2 (proj2 (proj2
             (proj2 (targetFromService_spec _) t Ht))))))).
  - intros t Ht.
    destruct (proj2 (targetFromService_spec _) t Ht)
      as (Hid & _ & _ & _ & _ & _ & Hb).
    split; [exact Hb | exact Hid].
  - apply (proj1 (targetFromService_spec plain_service)). left. reflexivity.
Defined.

(** The four backends, evaluated. *)
Example targetFromService_backends :
  map (fun svc =>
         option_map Backend (directipserver.targetFromService svc))
    [service "svc-1" "^300" "10.0.0.7";
     service_with [("protegear.io/directip-port", "9000")]
       "svc-2" "^300" "10.0.0.7";
     service_with [("protegear.io/directip-path", "/in")]
       "svc-3" "^300" "10.0.0.7";
     service_with [("protegear.io/directip-path", "/in");
                   ("protegear.io/directip-port", "9000")]
       "svc-4" "^300" "10.0.0.7";
     service_with [("protegear.io/directip-port", "")]
       "svc-5" "^300" "10.0.0.7";
     service "svc-6" "^300" ""]
    = [Some "http://10.0.0.7:8080/";
       Some "http://10.0.0.7:9000/";
       Some "http://10.0.0.7:8080/in";
       Some "http://10.0.0.7:9000/in";
       Some "http://10.0.0.7:8080/";
       None].
Proof. reflexivity. Qed.

(** The service of [targetA] is deleted while the table holds it twice,
    around [targetB]; the iteration read the table of the distributor it
    sends to. *)
Lemma watch_Deleted_witness :
  fst (directipserver.watch_event
         (targets (running [targetA; targetB; targetA]))
         (running [targetA; targetB; targetA])
         (watched directipserver.Deleted (service "a" "^300" "10.0.0.7")))
    = Returns tt /\
  targets
    (snd (directipserver.watch_event
            (targets (running [targetA; targetB; targetA]))
            (running [targetA; targetB; targetA])
            (watched directipserver.Deleted (service "a" "^300" "10.0.0.7"))))
    = [installed targetA; installed targetB; installed targetA] /\
  targets
    (run_set_config
       (snd (directipserver.watch_event
               (targets (running [targetA; targetB; targetA]))
               (running [targetA; targetB; targetA])
               (watched directipserver.Deleted
                  (service "a" "^300" "10.0.0.7")))) 0)
    = [installed targetB].
Proof.
  destruct (watch_Deleted
              (targets (running [targetA; targetB; targetA]))
              (running [targetA; targetB; targetA])
              (service "a" "^300" "10.0.0.7")
              (reachable_installed _
                 (reach_set_config _ 0
                    (reach_WithTargets _ _ (reach_New 1))))
              eq_refl ltac:(discriminate)) as (Hw & Hset & _).
  split; [exact (f_equal fst Hw) |].
  split; [exact (f_equal (fun r => targets (snd r)) Hw) | exact Hset].
Defined.

(** A service is added whose pattern compiles, and one whose pattern
    does not. *)
Lemma watch_Added_witness :
  targets
    (run_set_config
       (snd (directipserver.watch_event (targets (running [targetA]))
               (running [targetA])
               (watched directipserver.Added
                  (service "c" "^999" "10.0.0.7")))) 0)
    = [installed targetA;
       installed (candidate "c" "^999" "http://10.0.0.7:8080/")] /\
  directipserver.watch_event (targets (running [targetA]))
    (running [targetA])
    (watched directipserver.Added (service "c" "(" "10.0.0.7"))
    = (Returns tt, running [targetA]).
Proof.
  split.
  - exact (proj2 (proj1 (watch_Added (targets (running [targetA]))
                           (running [targetA])
                           (service "c" "^999" "10.0.0.7")
                           (reachable_installed _
                              (reach_set_config _ 0
                                 (reach_WithTargets _ _ (reach_New 1))))
                           eq_refl ltac:(discriminate))
                    "^999" eq_refl)).
  - exact (proj2 (watch_Added (targets (running [targetA]))
                    (running [targetA])
                    (service "c" "(" "10.0.0.7")
                    (reachable_installed _
                       (reach_set_config _ 0
                          (reach_WithTargets _ _ (reach_New 1))))
                    eq_refl ltac:(discriminate))
             eq_refl).
Defined.


(** The rejected modification, evaluated: the distributor is what it
    was. *)
Example watch_Modified_rejected :
  directipserver.watch_event (targets (running [targetA; targetB]))
    (running [targetA; targetB])
    (watched directipserver.Modified (service "b" "(" "10.0.0.8"))
    = (Returns tt, running [targetA; targetB]).
Proof. reflexivity. Qed.

(** Five events on a distributor with five listeners, the iterations
    scheduled in both ways. *)
Lemma watch_events_go_on_witness :
  reachable (running_on 5 [targetA]) /\
  (5 <= listeners (running_on 5 [targetA]))%nat /\
  exists s',
    directipserver.watch_events (running_on 5 [targetA])
      [settled_turn
         (watched directipserver.Added (service "c" "^999" "10.0.0.7"));
       early_turn
         (watched directipserver.Added (service "d" "(" "10.0.0.7"));
       settled_turn
         (watched directipserver.Modified (service "c" "^300" "10.0.0.8"));
       early_turn (watched directipserver.Bookmark plain_service);
       settled_turn
         (watched directipserver.Deleted (service "a" "" ""))]
      = (Returns tt, s').
Proof.
  assert (Hreach : reachable (running_on 5 [targetA])).
  { exact (reach_set_config _ 0 (reach_WithTargets _ _ (reach_New 5))). }
  split; [exact Hreach |]. split; [vm_compute; lia |].
  exact (proj2 (watch_events_go_on (running_on 5 [targetA])
                  [settled_turn
                     (watched directipserver.Added
                        (service "c" "^999" "10.0.0.7"));
                   early_turn
                     (watched directipserver.Added
                        (service "d" "(" "10.0.0.7"));
                   settled_turn
                     (watched directipserver.Modified
                        (service "c" "^300" "10.0.0.8"));
                   early_turn (watched directipserver.Bookmark plain_service);
                   settled_turn
                     (watched directipserver.Deleted (service "a" "" ""))]
                  Hreach eq_refl eq_refl)
           ltac:(vm_compute; lia)).
Defined.

(** The same events with one listener, every iteration reading the table
    after the previous update has been assigned: the table that is left
    once the last update is assigned. *)
Example watch_events_table :
  targets
    (run_set_config
       (snd (directipserver.watch_events (running [targetA])
               [settled_turn
                  (watched directipserver.Added
                     (service "c" "^999" "10.0.0.7"));
                settled_turn
                  (watched directipserver.Added
                     (service "d" "(" "10.0.0.7"));
                settled_turn
                  (watched directipserver.Modified
                     (service "c" "^300" "10.0.0.8"));
                settled_turn (watched directipserver.Bookmark plain_service);
                settled_turn
                  (watched directipserver.Deleted (service "a" "" ""))])) 0)
    = [installed (candidate "c" "^300" "http://10.0.0.8:8080/")].
Proof. reflexivity. Qed.

(** Two services are added in a row.  When the second iteration reads the
    table after the first update has been assigned, both targets are in
    the table that is left; when it reads the table before, the first
    update is overwritten by the second, which was built from the table
    without it. *)
Example watch_events_second_Added :
  targets
    (run_set_config
       (snd (directipserver.watch_events (running [targetA])
               [settled_turn
                  (watched directipserver.Added
                     (service "c" "^999" "10.0.0.7"));
                settled_turn
                  (watched directipserver.Added
                     (service "d" "^999" "10.0.0.8"))])) 0)
    = [installed targetA;
       installed (candidate "c" "^999" "http://10.0.0.7:8080/");
       installed (candidate "d" "^999" "http://10.0.0.8:8080/")] /\
  targets
    (run_set_config
       (snd (directipserver.watch_events (running [targetA])
               [settled_turn
                  (watched directipserver.Added
                     (service "c" "^999" "10.0.0.7"));
                early_turn
                  (watched directipserver.Added
                     (service "d" "^999" "10.0.0.8"))])) 0)
    = [installed targetA;
       installed (candidate "d" "^999" "http://10.0.0.8:8080/")].
Proof. split; reflexivity. Qed.
